(** * Tagged allocator (tagged_alloc.h): allocation table model and properties

    A shallow embedding of the allocation-tracking table of
    [TaggedAlloc] (arduino-esp32, 32-bit [size_t] and pointers).

    Conventions of the embedding:
    - [size_t] and [uint32_t] values are [Z] with the wrap-around modulo
      2^32 written out ([wrap]);
    - a pointer is its 32-bit address, [0] being [nullptr];
    - the static variables [AllocationCount], [AllocationTableSize] and
      [AllocationTable] form the record [state]; the table is the list of
      descriptors that the backing buffer really holds, so that an index
      below [AllocationTableSize] but outside the buffer is visible as
      [OutOfBounds];
    - [assert] is active (the source takes its mutex inside [assert], so
      it cannot be compiled out): a failed assertion ends the run with
      [AssertFail];
    - the [while] loop of [DefragAllocationTable] runs on fuel, [Diverges]
      standing for a loop that outlasts it; the fuel given is shown to be
      enough ([DefragAllocationTable_returns]);
    - the recursive mutex is always available to the single caller that
      is modelled, so the [xSemaphoreTake]/[xSemaphoreGive] pairs are no-ops;
    - [malloc], [realloc] and [millis] are outside the program: their
      results are inputs ([platform], and the [ptr]/[now] arguments of
      [AllocateInternal]). *)

From Stdlib Require Import String Strings.Byte.
From Stdlib Require Import ZArith List Lia Bool Permutation.
Import ListNotations.
Local Open Scope Z_scope.

(** ** Configuration *)

Definition TAGGED_ALLOC_MIN_TABLE_SIZE : Z := 32.
Definition TAGGED_ALLOC_INITIAL_TABLE_SIZE : Z := 64.
Definition TAGGED_ALLOC_TABLE_SHRINK_STEP : Z := 64.
Definition TAGGED_ALLOC_TABLE_EXPAND_STEP : Z := 32.

(** [size_t] arithmetic of the 32-bit target. *)
Definition size_t_modulus : Z := 2 ^ 32.
Definition wrap (z : Z) : Z := z mod size_t_modulus.

(** ** Descriptors *)

Definition tag4 : Type := (byte * byte * byte * byte)%type.

Record TaggedAllocationDescriptor : Type := mkDescriptor {
  Object : Z;
  Size : Z;
  Tag : tag4;
  Time : Z
}.

(** [sizeof(TaggedAllocationDescriptor)]: pointer, [size_t], [char[4]] and
    [uint32_t], time tracking being on by default. *)
Definition sizeof_descriptor : Z := 16.

(** [TAGGED_ALLOC_IS_VALID(t)]. *)
Definition TAGGED_ALLOC_IS_VALID (t : TaggedAllocationDescriptor) : bool :=
  negb (Object t =? 0).

(** The aggregate [{ 0 }]. *)
Definition zero_descriptor : TaggedAllocationDescriptor :=
  mkDescriptor 0 0 (x00, x00, x00, x00) 0.

Definition table : Type := list TaggedAllocationDescriptor.

(** ** Outcomes of a call *)

Inductive outcome (A : Type) : Type :=
| Ok (a : A)
| AssertFail
| OutOfBounds
| Diverges.

Arguments Ok {A} a.
Arguments AssertFail {A}.
Arguments OutOfBounds {A}.
Arguments Diverges {A}.

Definition bind {A B : Type} (c : outcome A) (k : A -> outcome B) : outcome B :=
  match c with
  | Ok a => k a
  | AssertFail => AssertFail
  | OutOfBounds => OutOfBounds
  | Diverges => Diverges
  end.

Notation "x <- c ;; k" := (bind c (fun x => k))
  (at level 61, c at next level, right associativity).

Definition assert (b : bool) : outcome unit :=
  if b then Ok tt else AssertFail.

(** ** State *)

Record state : Type := mkState {
  AllocationCount : Z;
  AllocationTableSize : Z;
  AllocationTable : table
}.

(** What the program cannot decide: whether [realloc] to a byte size
    returns a buffer, and the indeterminate contents of memory that
    [malloc] and [realloc] hand out (by entry index). *)
Record platform : Type := mkPlatform {
  realloc_succeeds : Z -> bool;
  uninit : nat -> TaggedAllocationDescriptor
}.

(** [AllocationTable[n] = d], for an index inside the buffer. *)
Fixpoint store (n : nat) (d : TaggedAllocationDescriptor) (t : table) : table :=
  match t, n with
  | [], _ => []
  | _ :: t', O => d :: t'
  | x :: t', S n' => x :: store n' d t'
  end.

Definition store_checked (n : nat) (d : TaggedAllocationDescriptor) (t : table)
  : outcome table :=
  if (n <? length t)%nat then Ok (store n d t) else OutOfBounds.

(** The static initial values followed by [Init()]: the buffer of
    [AllocationTableSize] entries comes from [malloc] and is not cleared. *)
Definition Init (mem : nat -> TaggedAllocationDescriptor) : state :=
  mkState 0 TAGGED_ALLOC_INITIAL_TABLE_SIZE
          (map mem (seq 0 (Z.to_nat TAGGED_ALLOC_INITIAL_TABLE_SIZE))).

(** ** Public queries *)

Definition GetAllocationCount (st : state) : Z := AllocationCount st.

(** The loop of [GetTotalSize]: [k] iterations are left, [index] is the
    loop variable. *)
Fixpoint GetTotalSize_loop (k index : nat) (t : table) (totalSize : Z)
  : outcome Z :=
  match k with
  | O => Ok totalSize
  | S k' =>
    match nth_error t index with
    | None => OutOfBounds
    | Some d =>
      GetTotalSize_loop k' (S index) t
        (if TAGGED_ALLOC_IS_VALID d then wrap (totalSize + Size d)
         else totalSize)
    end
  end.

Definition GetTotalSize (st : state) : outcome Z :=
  GetTotalSize_loop (Z.to_nat (AllocationTableSize st)) 0
                    (AllocationTable st) 0.

(** ** Private functions *)

(** [GetFirstEmptySlot]: the result flag and the value of [*index]
    afterwards ([index0] when nothing was written). *)
Fixpoint GetFirstEmptySlot_loop (k n : nat) (t : table) (index0 : Z)
  : outcome (bool * Z) :=
  match k with
  | O => Ok (false, index0)
  | S k' =>
    match nth_error t n with
    | None => OutOfBounds
    | Some d =>
      if negb (TAGGED_ALLOC_IS_VALID d) then Ok (true, Z.of_nat n)
      else GetFirstEmptySlot_loop k' (S n) t index0
    end
  end.

Definition GetFirstEmptySlot (index0 : Z) (st : state) : outcome (bool * Z) :=
  GetFirstEmptySlot_loop (Z.to_nat (AllocationTableSize st)) 0
                         (AllocationTable st) index0.

(** The loop of [IsAllocationTableFragmented]. [index] runs from [start],
    while [entry] is the offset of the pointer that the source starts at
    [AllocationTable] itself and advances once per iteration. *)
Fixpoint IsAllocationTableFragmented_loop
    (k : nat) (index : Z) (entry : nat) (t : table)
    (reachedInvalidEntry : bool) (firstEmptyIndex firstValidIndex : Z)
  : outcome (bool * Z * Z) :=
  match k with
  | O => Ok (false, firstEmptyIndex, firstValidIndex)
  | S k' =>
    match nth_error t entry with
    | None => OutOfBounds
    | Some d =>
      let validEntry := TAGGED_ALLOC_IS_VALID d in
      if validEntry && reachedInvalidEntry
      then Ok (true, firstEmptyIndex, index)
      else if negb validEntry
      then if negb reachedInvalidEntry
           then IsAllocationTableFragmented_loop k' (index + 1) (S entry) t
                  true index firstValidIndex
           else IsAllocationTableFragmented_loop k' (index + 1) (S entry) t
                  reachedInvalidEntry firstEmptyIndex firstValidIndex
      else IsAllocationTableFragmented_loop k' (index + 1) (S entry) t
             reachedInvalidEntry firstEmptyIndex firstValidIndex
    end
  end.

(** Returns the flag and the values of [*firstEmptyIndex] and
    [*firstValidIndex] afterwards. *)
Definition IsAllocationTableFragmented
    (start firstEmptyIndex firstValidIndex : Z) (st : state)
  : outcome (bool * Z * Z) :=
  _ <- assert (start <? AllocationTableSize st) ;;
  IsAllocationTableFragmented_loop
    (Z.to_nat (AllocationTableSize st - start)) start 0
    (AllocationTable st) false firstEmptyIndex firstValidIndex.

(** The [while] loop of [DefragAllocationTable]; [fuel] bounds the number
    of calls of [IsAllocationTableFragmented]. *)
Fixpoint DefragAllocationTable_loop
    (fuel : nat) (firstEmptyIndex firstValidIndex : Z) (st : state)
  : outcome state :=
  match fuel with
  | O => Diverges
  | S fuel' =>
    r <- IsAllocationTableFragmented firstEmptyIndex
           firstEmptyIndex firstValidIndex st ;;
    match r with
    | (true, fe, fv) =>
      match nth_error (AllocationTable st) (Z.to_nat fv) with
      | None => OutOfBounds
      | Some d =>
        t1 <- store_checked (Z.to_nat fe) d (AllocationTable st) ;;
        t2 <- store_checked (Z.to_nat fv) zero_descriptor t1 ;;
        DefragAllocationTable_loop fuel' fe fv
          (mkState (AllocationCount st) (AllocationTableSize st) t2)
      end
    | (false, _, _) => Ok st
    end
  end.

Definition DefragAllocationTable (st : state) : outcome state :=
  DefragAllocationTable_loop (Z.to_nat (AllocationTableSize st) + 2) 0 0 st.

(** What [realloc] returns for [n] entries: the old entries that fit,
    followed by indeterminate ones. *)
Definition realloc_buffer (P : platform) (old : table) (n : nat) : table :=
  map (fun i => nth i old (uninit P i)) (seq 0 n).

Definition ResizeAllocationTable (P : platform) (newEntryCount : Z) (st : state)
  : outcome state :=
  _ <- assert (newEntryCount <? TAGGED_ALLOC_MIN_TABLE_SIZE) ;;
  if negb (newEntryCount =? AllocationTableSize st) then
    st1 <- (if newEntryCount <? AllocationTableSize st
            then DefragAllocationTable st else Ok st) ;;
    let newSize := wrap (newEntryCount * sizeof_descriptor) in
    _ <- assert (realloc_succeeds P newSize) ;;
    Ok (mkState (AllocationCount st1) newSize
          (realloc_buffer P (AllocationTable st1)
             (Z.to_nat (newSize / sizeof_descriptor))))
  else Ok st.

Definition InsertAllocation (P : platform) (ta : TaggedAllocationDescriptor)
    (st : state) : outcome state :=
  let insertIndex := 0 in
  r1 <- GetFirstEmptySlot insertIndex st ;;
  st1 <- (if negb (fst r1)
          then ResizeAllocationTable P
                 (wrap (AllocationTableSize st + TAGGED_ALLOC_TABLE_EXPAND_STEP))
                 st
          else Ok st) ;;
  r2 <- GetFirstEmptySlot (snd r1) st1 ;;
  _ <- assert (fst r2) ;;
  t <- store_checked (Z.to_nat (snd r2)) ta (AllocationTable st1) ;;
  Ok (mkState (wrap (AllocationCount st1 + 1)) (AllocationTableSize st1) t).

(** The [for] loop of [RemoveAllocation]. *)
Fixpoint RemoveAllocation_loop (k n : nat) (objectPointer : Z) (t : table)
  : outcome table :=
  match k with
  | O => Ok t
  | S k' =>
    match nth_error t n with
    | None => OutOfBounds
    | Some d =>
      if TAGGED_ALLOC_IS_VALID d && (Object d =? objectPointer)
      then Ok (store n zero_descriptor t)
      else RemoveAllocation_loop k' (S n) objectPointer t
    end
  end.

(** The shrink test of [RemoveAllocation], on the decremented count. *)
Definition shrink_guard (count tableSize : Z) : bool :=
  (TAGGED_ALLOC_MIN_TABLE_SIZE <? count)
  && (wrap (count + TAGGED_ALLOC_TABLE_SHRINK_STEP) <? tableSize).

(** The state after the scan and [AllocationCount--]. *)
Definition RemoveAllocation_scan (objectPointer : Z) (st : state)
  : outcome state :=
  t <- RemoveAllocation_loop (Z.to_nat (AllocationTableSize st)) 0
         objectPointer (AllocationTable st) ;;
  Ok (mkState (wrap (AllocationCount st - 1)) (AllocationTableSize st) t).

Definition RemoveAllocation (P : platform) (objectPointer : Z) (st : state)
  : outcome state :=
  st1 <- RemoveAllocation_scan objectPointer st ;;
  if shrink_guard (AllocationCount st1) (AllocationTableSize st1) then
    let shrunkSize :=
      wrap (AllocationTableSize st1 - TAGGED_ALLOC_TABLE_SHRINK_STEP) in
    ResizeAllocationTable P shrunkSize st1
  else Ok st1.

(** [AllocateInternal<T>(count, tag)] with [sizeofT = sizeof(T)]; [now] is
    what [millis()] returns and [ptr] what [malloc] returns. *)
Definition AllocateInternal (P : platform) (sizeofT count : Z) (tag : tag4)
    (now ptr : Z) (st : state) : outcome (Z * state) :=
  let ta := mkDescriptor ptr (wrap (sizeofT * count)) tag now in
  _ <- assert (negb (Object ta =? 0)) ;;
  st1 <- InsertAllocation P ta st ;;
  Ok (Object ta, st1).

Definition Allocate (P : platform) (sizeofT : Z) (tag : tag4) (now ptr : Z)
    (st : state) : outcome (Z * state) :=
  AllocateInternal P sizeofT 1 tag now ptr st.

Definition AllocateArray (P : platform) (sizeofT count : Z) (tag : tag4)
    (now ptr : Z) (st : state) : outcome (Z * state) :=
  AllocateInternal P sizeofT count tag now ptr st.

(** [Free(object)]: the table part; [free(object)] itself is the
    platform's. *)
Definition Free (P : platform) (object : Z) (st : state) : outcome state :=
  RemoveAllocation P object st.

(** ** Serial output of [PrintStats] *)

(** The calls made on [Serial], in order. [print_seconds ms] stands for
    [Serial.print(ms / 1000.0)], the double being left to the platform. *)
Inductive serial_call : Type :=
| println_str (s : string)
| print_str (s : string)
| print_dec (n : Z)
| println_dec (n : Z)
| write_bytes (bs : list byte)
| print_seconds (ms : Z)
| print_hex (n : Z).

Definition tag_bytes (tg : tag4) : list byte :=
  let '(a, b, c, d) := tg in [a; b; c; d].

(** The body of the [if] inside the printing loop. *)
Definition PrintStats_record (alloc : TaggedAllocationDescriptor)
  : list serial_call :=
  [ print_str "Tag: "; write_bytes (tag_bytes (Tag alloc));
    print_str ", Size: "; print_dec (Size alloc);
    print_str ", Time: "; print_seconds (Time alloc);
    print_str ", Pointer: 0x"; print_hex (wrap (Object alloc));
    println_str "" ].

(** The printing loop over the copy; the calls made so far are returned
    with the outcome. *)
Fixpoint PrintStats_loop (k index : nat) (allocationTableCopy : table)
  : list serial_call * outcome unit :=
  match k with
  | O => ([], Ok tt)
  | S k' =>
    match nth_error allocationTableCopy index with
    | None => ([], OutOfBounds)
    | Some alloc =>
      let '(out, r) := PrintStats_loop k' (S index) allocationTableCopy in
      ((if TAGGED_ALLOC_IS_VALID alloc then PrintStats_record alloc else [])
         ++ out, r)
    end
  end.

(** [memcpy] of [bytes] bytes out of the table, into a buffer of that
    size (the source does not check the [malloc] of the copy). *)
Definition copy_table (bytes : Z) (t : table) : outcome table :=
  let n := Z.to_nat (bytes / sizeof_descriptor) in
  if (n <=? length t)%nat then Ok (firstn n t) else OutOfBounds.

Definition PrintStats_summary (allocCount : Z) : list serial_call :=
  [ print_str "Allocation count: "; println_dec allocCount;
    print_str "Table size: "; print_dec allocCount;
    print_str " ("; print_dec (wrap (allocCount * sizeof_descriptor));
    println_str " bytes)" ].

Definition PrintStats_banner : list serial_call :=
  [ println_str "*** TAGGED ALLOCATION STATS ***";
    println_str "> Capturing allocation table..." ].

Definition PrintStats (st : state) : list serial_call * outcome unit :=
  let tableSize := wrap (AllocationTableSize st * sizeof_descriptor) in
  let allocCount := AllocationCount st in
  match copy_table tableSize (AllocationTable st) with
  | Ok allocationTableCopy =>
    let '(out, r) :=
      PrintStats_loop (Z.to_nat tableSize) 0 allocationTableCopy in
    (PrintStats_banner ++ PrintStats_summary allocCount ++ out, r)
  | AssertFail => (PrintStats_banner, AssertFail)
  | OutOfBounds => (PrintStats_banner, OutOfBounds)
  | Diverges => (PrintStats_banner, Diverges)
  end.

(** ** Vocabulary of the properties *)

(** The buffer holds exactly [AllocationTableSize] entries, and the
    counters are [size_t] values. *)
Definition state_wf (st : state) : Prop :=
  Z.of_nat (length (AllocationTable st)) = AllocationTableSize st
  /\ AllocationTableSize st < size_t_modulus
  /\ 0 <= AllocationCount st < size_t_modulus.

(** The valid records of a table, in slot order, and their number. *)
Definition live_records (t : table) : table :=
  filter TAGGED_ALLOC_IS_VALID t.

Definition valid_count (t : table) : Z :=
  Z.of_nat (length (live_records t)).

(** The sum of [Size] over the valid records, as an unbounded integer. *)
Fixpoint sum_live_sizes (t : table) : Z :=
  match t with
  | [] => 0
  | d :: t' =>
    (if TAGGED_ALLOC_IS_VALID d then Size d else 0) + sum_live_sizes t'
  end.

(** A slot that the removal scan clears: valid and holding the address. *)
Definition holds (objectPointer : Z) (d : TaggedAllocationDescriptor) : bool :=
  TAGGED_ALLOC_IS_VALID d && (Object d =? objectPointer).

(** The lowest index of an empty slot, and of a slot that the removal
    scan clears, in a list of slots. *)
Fixpoint first_empty (t : table) : option nat :=
  match t with
  | [] => None
  | d :: t' =>
    if negb (TAGGED_ALLOC_IS_VALID d) then Some O
    else option_map S (first_empty t')
  end.

Fixpoint first_holding (objectPointer : Z) (t : table) : option nat :=
  match t with
  | [] => None
  | d :: t' =>
    if holds objectPointer d then Some O
    else option_map S (first_holding objectPointer t')
  end.

(** Whether slot 0 holds a valid record. *)
Definition head_valid (t : table) : bool :=
  match t with
  | d :: _ => TAGGED_ALLOC_IS_VALID d
  | [] => false
  end.

(** All valid records first, all empty slots after them. *)
Definition is_compact (t : table) : bool :=
  let n := length (live_records t) in
  forallb TAGGED_ALLOC_IS_VALID (firstn n t)
  && forallb (fun d => negb (TAGGED_ALLOC_IS_VALID d)) (skipn n t).

(** ** Sequences of public calls *)

Inductive call : Type :=
| CallAllocate (sizeofT count : Z) (tag : tag4) (now ptr : Z)
| CallFree (object : Z).

Definition step (P : platform) (c : call) (st : state) : outcome state :=
  match c with
  | CallAllocate sizeofT count tag now ptr =>
    r <- AllocateInternal P sizeofT count tag now ptr st ;;
    Ok (snd r)
  | CallFree object => Free P object st
  end.

Fixpoint run (P : platform) (cs : list call) (st : state) : outcome state :=
  match cs with
  | [] => Ok st
  | c :: cs' => st1 <- step P c st ;; run P cs' st1
  end.

Fixpoint remove_first (p : Z) (l : list Z) : list Z :=
  match l with
  | [] => []
  | x :: l' => if x =? p then l' else x :: remove_first p l'
  end.

(** The addresses returned by an Allocate and not yet passed to a Free,
    after the calls [cs] made when [live] were outstanding. *)
Fixpoint outstanding_from (live : list Z) (cs : list call) : list Z :=
  match cs with
  | [] => live
  | CallAllocate _ _ _ _ ptr :: cs' => outstanding_from (ptr :: live) cs'
  | CallFree object :: cs' => outstanding_from (remove_first object live) cs'
  end.

Definition outstanding (cs : list call) : list Z := outstanding_from [] cs.

(** Every Free is on an address that is outstanding when it is made. *)
Fixpoint frees_matched_from (live : list Z) (cs : list call) : bool :=
  match cs with
  | [] => true
  | CallAllocate _ _ _ _ ptr :: cs' => frees_matched_from (ptr :: live) cs'
  | CallFree object :: cs' =>
    existsb (Z.eqb object) live
    && frees_matched_from (remove_first object live) cs'
  end.

Definition frees_matched (cs : list call) : bool := frees_matched_from [] cs.

(** Every Allocate gets a non-null address from [malloc] and is made
    while fewer than [cap] addresses are outstanding. *)
Fixpoint allocations_fit_from (cap : nat) (live : list Z) (cs : list call)
  : bool :=
  match cs with
  | [] => true
  | CallAllocate _ _ _ _ ptr :: cs' =>
    (length live <? cap)%nat && negb (ptr =? 0)
    && allocations_fit_from cap (ptr :: live) cs'
  | CallFree object :: cs' =>
    allocations_fit_from cap (remove_first object live) cs'
  end.

Definition allocations_fit (cap : nat) (cs : list call) : bool :=
  allocations_fit_from cap [] cs.

(** What a run from the initial table keeps: the table fills its buffer
    of 64 entries, the count is the number of outstanding addresses and
    does not exceed the number of valid slots. *)
Definition run_invariant (st : state) (live : list Z) : Prop :=
  state_wf st
  /\ AllocationTableSize st = TAGGED_ALLOC_INITIAL_TABLE_SIZE
  /\ AllocationCount st = Z.of_nat (length live)
  /\ AllocationCount st <= valid_count (AllocationTable st).

(** What a run from a cleared initial table keeps as well: the valid
    slots hold exactly the outstanding addresses. *)
Definition tracking_invariant (st : state) (live : list Z) : Prop :=
  state_wf st
  /\ AllocationTableSize st = TAGGED_ALLOC_INITIAL_TABLE_SIZE
  /\ AllocationCount st = Z.of_nat (length live)
  /\ Permutation (map Object (live_records (AllocationTable st))) live.

(** ** The report line as the specification words it

    Follows the specification's description of [Dump()], for comparison
    with [PrintStats_record]: tag bytes, size, the time elapsed since the
    record's creation when the dump is made at time [now], address. *)
Definition Dump_record_spec (now : Z) (alloc : TaggedAllocationDescriptor)
  : list serial_call :=
  [ print_str "Tag: "; write_bytes (tag_bytes (Tag alloc));
    print_str ", Size: "; print_dec (Size alloc);
    print_str ", Time: "; print_seconds (wrap (now - Time alloc));
    print_str ", Pointer: 0x"; print_hex (wrap (Object alloc));
    println_str "" ].

(** ** Concrete platforms and tables *)

(** ESP-IDF: [realloc] to zero bytes frees the buffer and returns
    [nullptr]; fresh memory happens to be all zero. *)
Definition esp32 : platform :=
  mkPlatform (fun bytes => 0 <? bytes) (fun _ => zero_descriptor).

(** A platform whose [realloc] always returns a buffer. *)
Definition lenient : platform :=
  mkPlatform (fun _ => true) (fun _ => zero_descriptor).

Definition tagA : tag4 := ("T"%byte, "A"%byte, "G"%byte, "A"%byte).

(** A record of [size] bytes at address [ptr], created at time [now]. *)
Definition rec (ptr size now : Z) : TaggedAllocationDescriptor :=
  mkDescriptor ptr size tagA now.

(** [n] live 4-byte records at addresses [base], [base + 4], ... *)
Definition full_table (base : Z) (n : nat) : table :=
  map (fun i => rec (base + 4 * Z.of_nat i) 4 0) (seq 0 n).

(** A fresh table after [Init()] on cleared memory. *)
Definition fresh_state : state := Init (fun _ => zero_descriptor).

(** 64 live records in the initial table of 64 entries. *)
Definition full_state : state := mkState 64 64 (full_table 4096 64).

(** A table of 96 entries holding 32 live records in its first slots. *)
Definition state_96_32 : state :=
  mkState 32 96 (full_table 4096 32 ++ repeat zero_descriptor 64).

(** A table of 160 entries holding 34 live records in its first slots. *)
Definition state_160_34 : state :=
  mkState 34 160 (full_table 4096 34 ++ repeat zero_descriptor 126).

(** Six slots, the second one empty. *)
Definition gap_table : table :=
  [ rec 4096 4 0; zero_descriptor; rec 4100 4 0; rec 4104 4 0;
    rec 4108 4 0; rec 4112 4 0 ].

Definition gap_state : state := mkState 5 6 gap_table.

(** One live record created at 5000 ms. *)
Definition one_record_state : state := mkState 1 1 [rec 4096 16 5000].

(** Three allocations and two frees. *)
Definition sample_calls : list call :=
  [ CallAllocate 4 1 tagA 10 4096; CallAllocate 8 2 tagA 20 4100;
    CallFree 4096; CallAllocate 4 1 tagA 30 4096; CallFree 4100 ].

(** 64 allocations of 4 bytes at addresses 4096, 4100, ... *)
Definition fill_calls : list call :=
  map (fun i => CallAllocate 4 1 tagA 0 (4096 + 4 * Z.of_nat i)) (seq 0 64).

(** [gap_table] after the first move of the defragmentation pass. *)
Definition moved_gap_state : state :=
  mkState 5 6 [ rec 4096 4 0; rec 4100 4 0; zero_descriptor; rec 4104 4 0;
                rec 4108 4 0; rec 4112 4 0 ].

(** The 64 allocations of [fill_calls] followed by one more. *)
Definition overflow_calls : list call :=
  fill_calls ++ [CallAllocate 4 1 tagA 0 8192].


(** Two records whose sizes add up to 2^32 + 1. *)
Definition wrapping_state : state :=
  mkState 2 3 [ rec 4096 4294967295 0; zero_descriptor; rec 8192 2 0 ].

(** * Properties *)

(** Closed well-formedness and comparison goals are settled by
    evaluation. *)
Ltac wf_by_computation :=
  repeat split; vm_compute; congruence.

(** ** Lists and [store] *)

Lemma length_store (n : nat) (d : TaggedAllocationDescriptor) (t : table) :
  length (store n d t) = length t.
Proof.
  revert n; induction t as [|x t IH]; intros [|n]; simpl; auto.
Qed.

Lemma nth_error_store_eq (n : nat) (d : TaggedAllocationDescriptor) (t : table) :
  (n < length t)%nat -> nth_error (store n d t) n = Some d.
Proof.
  revert n; induction t as [|x t IH]; intros [|n] H; simpl in *;
    try lia; auto.
  apply IH; lia.
Qed.

Lemma nth_error_store_neq (n m : nat) (d : TaggedAllocationDescriptor)
    (t : table) :
  n <> m -> nth_error (store n d t) m = nth_error t m.
Proof.
  revert n m; induction t as [|x t IH]; intros [|n] [|m] H; simpl;
    try congruence; auto.
Qed.

Lemma nth_error_middle (pre suf : table) (d : TaggedAllocationDescriptor) :
  nth_error (pre ++ d :: suf) (length pre) = Some d.
Proof.
  induction pre; simpl; auto.
Qed.

Lemma store_middle (pre suf : table) (x d : TaggedAllocationDescriptor) :
  store (length pre) d (pre ++ x :: suf) = pre ++ d :: suf.
Proof.
  induction pre; simpl; congruence.
Qed.

Lemma snoc_app (pre suf : table) (d : TaggedAllocationDescriptor) :
  pre ++ d :: suf = (pre ++ [d]) ++ suf.
Proof.
  now rewrite <- app_assoc.
Qed.

Lemma length_snoc (pre : table) (d : TaggedAllocationDescriptor) :
  length (pre ++ [d]) = S (length pre).
Proof.
  rewrite length_app; simpl; lia.
Qed.

Lemma wrap_small (z : Z) : 0 <= z < size_t_modulus -> wrap z = z.
Proof.
  intros H; unfold wrap; now apply Z.mod_small.
Qed.

Lemma wrap_range (z : Z) : 0 <= wrap z < size_t_modulus.
Proof.
  unfold wrap, size_t_modulus; apply Z.mod_pos_bound; lia.
Qed.

(** ** The precondition check of [ResizeAllocationTable] *)

Lemma ResizeAllocationTable_at_or_above_minimum
    (P : platform) (n : Z) (st : state) :
  TAGGED_ALLOC_MIN_TABLE_SIZE <= n ->
  ResizeAllocationTable P n st = AssertFail.
Proof.
  intros H; unfold ResizeAllocationTable.
  destruct (n <? TAGGED_ALLOC_MIN_TABLE_SIZE) eqn:E; [|reflexivity].
  apply Z.ltb_lt in E; lia.
Qed.


(** ** The scans over a table that fills its buffer *)

Lemma table_length_of_wf (st : state) :
  state_wf st ->
  Z.to_nat (AllocationTableSize st) = length (AllocationTable st).
Proof.
  intros [H _]; rewrite <- H; apply Nat2Z.id.
Qed.

Lemma GetFirstEmptySlot_loop_spec (pre suf : table) (index0 : Z) :
  GetFirstEmptySlot_loop (length suf) (length pre) (pre ++ suf) index0 =
  match first_empty suf with
  | Some j => Ok (true, Z.of_nat (length pre + j))
  | None => Ok (false, index0)
  end.
Proof.
  revert pre; induction suf as [|d suf IH]; intros pre; simpl; [reflexivity|].
  rewrite nth_error_middle.
  destruct (negb (TAGGED_ALLOC_IS_VALID d)); simpl.
  - now rewrite Nat.add_0_r.
  - rewrite snoc_app, <- (length_snoc pre d), IH, length_snoc.
    destruct (first_empty suf); simpl; [|reflexivity].
    now rewrite Nat.add_succ_r.
Qed.

Lemma GetFirstEmptySlot_spec (index0 : Z) (st : state) :
  state_wf st ->
  GetFirstEmptySlot index0 st =
  match first_empty (AllocationTable st) with
  | Some j => Ok (true, Z.of_nat j)
  | None => Ok (false, index0)
  end.
Proof.
  intros H; unfold GetFirstEmptySlot.
  rewrite (table_length_of_wf st H).
  apply (GetFirstEmptySlot_loop_spec [] (AllocationTable st) index0).
Qed.

Lemma first_empty_Some (t : table) (j : nat) :
  first_empty t = Some j ->
  exists d, nth_error t j = Some d /\ TAGGED_ALLOC_IS_VALID d = false.
Proof.
  revert j; induction t as [|x t IH]; intros j H; simpl in H; [discriminate|].
  destruct (TAGGED_ALLOC_IS_VALID x) eqn:E; simpl in H.
  - destruct (first_empty t) as [i|]; [|discriminate].
    injection H as <-; simpl; now apply IH.
  - injection H as <-; exists x; auto.
Qed.

Lemma first_empty_None (t : table) :
  first_empty t = None -> live_records t = t.
Proof.
  induction t as [|x t IH]; cbn [first_empty]; intros H; [reflexivity|].
  destruct (TAGGED_ALLOC_IS_VALID x) eqn:E; cbn [negb] in H; [|discriminate].
  destruct (first_empty t); [discriminate|].
  unfold live_records in *; cbn [filter]; rewrite E; f_equal; auto.
Qed.

Lemma RemoveAllocation_loop_spec (pre suf : table) (p : Z) :
  RemoveAllocation_loop (length suf) (length pre) p (pre ++ suf) =
  Ok (match first_holding p suf with
      | Some j => store (length pre + j) zero_descriptor (pre ++ suf)
      | None => pre ++ suf
      end).
Proof.
  revert pre; induction suf as [|d suf IH]; intros pre; simpl; [reflexivity|].
  rewrite nth_error_middle; fold (holds p d).
  destruct (holds p d); simpl.
  - now rewrite Nat.add_0_r.
  - rewrite snoc_app, <- (length_snoc pre d), IH, length_snoc.
    destruct (first_holding p suf); simpl; [|reflexivity].
    now rewrite Nat.add_succ_r.
Qed.

Lemma first_holding_Some (p : Z) (t : table) (j : nat) :
  first_holding p t = Some j ->
  (exists d, nth_error t j = Some d /\ holds p d = true)
  /\ (forall i d, (i < j)%nat -> nth_error t i = Some d -> holds p d = false).
Proof.
  revert j; induction t as [|x t IH]; intros j H; simpl in H; [discriminate|].
  destruct (holds p x) eqn:E.
  - injection H as <-; split; [exists x; auto|intros; lia].
  - destruct (first_holding p t) as [i|]; [|discriminate].
    injection H as <-; destruct (IH i eq_refl) as [H1 H2]; split; [exact H1|].
    intros [|k] d Hk Hd; simpl in Hd; [congruence|].
    apply (H2 k); [lia|exact Hd].
Qed.

Lemma first_holding_None (p : Z) (t : table) (i : nat)
    (d : TaggedAllocationDescriptor) :
  first_holding p t = None -> nth_error t i = Some d -> holds p d = false.
Proof.
  revert i; induction t as [|x t IH]; intros i H Hd; simpl in H.
  - destruct i; discriminate.
  - destruct (holds p x) eqn:E; [discriminate|].
    destruct (first_holding p t); [discriminate|].
    destruct i; simpl in Hd; [congruence|eauto].
Qed.

Lemma first_holding_lt (p : Z) (t : table) (j : nat) :
  first_holding p t = Some j -> (j < length t)%nat.
Proof.
  intros H; destruct (first_holding_Some p t j H) as [[d [Hd _]] _].
  apply nth_error_Some; congruence.
Qed.

Lemma first_holding_absent (p : Z) (t : table) :
  (forall i d, nth_error t i = Some d -> holds p d = false) ->
  first_holding p t = None.
Proof.
  induction t as [|x t IH]; intros H; simpl; [reflexivity|].
  rewrite (H O x eq_refl), IH; [reflexivity|].
  intros i d Hd; apply (H (S i) d Hd).
Qed.

Lemma RemoveAllocation_scan_spec (p : Z) (st : state) :
  state_wf st ->
  RemoveAllocation_scan p st =
  Ok (mkState (wrap (AllocationCount st - 1)) (AllocationTableSize st)
        (match first_holding p (AllocationTable st) with
         | Some j => store j zero_descriptor (AllocationTable st)
         | None => AllocationTable st
         end)).
Proof.
  intros H; unfold RemoveAllocation_scan.
  rewrite (table_length_of_wf st H).
  pose proof (RemoveAllocation_loop_spec [] (AllocationTable st) p) as E.
  simpl in E; now rewrite E.
Qed.

Lemma RemoveAllocation_scan_wf (p : Z) (st st1 : state) :
  state_wf st -> RemoveAllocation_scan p st = Ok st1 ->
  state_wf st1
  /\ AllocationTableSize st1 = AllocationTableSize st
  /\ AllocationCount st1 = wrap (AllocationCount st - 1).
Proof.
  intros H E; rewrite (RemoveAllocation_scan_spec p st H) in E.
  injection E as <-; simpl; destruct H as (Hl & Hs & Hc).
  split; [|split; reflexivity].
  unfold state_wf; simpl; split; [|split; [exact Hs|apply wrap_range]].
  destruct (first_holding p (AllocationTable st));
    now rewrite ?length_store.
Qed.

Lemma shrink_guard_true (count tableSize : Z) :
  shrink_guard count tableSize = true <->
  TAGGED_ALLOC_MIN_TABLE_SIZE < count
  /\ wrap (count + TAGGED_ALLOC_TABLE_SHRINK_STEP) < tableSize.
Proof.
  unfold shrink_guard; rewrite andb_true_iff, !Z.ltb_lt; tauto.
Qed.

(** ** Counting valid slots *)

Lemma valid_count_cons (d : TaggedAllocationDescriptor) (t : table) :
  valid_count (d :: t) =
  (if TAGGED_ALLOC_IS_VALID d then 1 else 0) + valid_count t.
Proof.
  unfold valid_count, live_records; cbn [filter].
  destruct (TAGGED_ALLOC_IS_VALID d); cbn [length]; lia.
Qed.

Lemma valid_count_bounds (t : table) :
  0 <= valid_count t <= Z.of_nat (length t).
Proof.
  induction t as [|d t IH]; [unfold valid_count; simpl; lia|].
  rewrite valid_count_cons; cbn [length].
  destruct (TAGGED_ALLOC_IS_VALID d); lia.
Qed.

Lemma valid_count_store (n : nat) (x d : TaggedAllocationDescriptor)
    (t : table) :
  nth_error t n = Some x ->
  valid_count (store n d t) =
  valid_count t - (if TAGGED_ALLOC_IS_VALID x then 1 else 0)
  + (if TAGGED_ALLOC_IS_VALID d then 1 else 0).
Proof.
  revert n; induction t as [|y t IH]; intros [|n] H; simpl in H;
    try discriminate.
  - injection H as ->; cbn [store]; rewrite !valid_count_cons; lia.
  - cbn [store]; rewrite !valid_count_cons, (IH n H); lia.
Qed.

Lemma holds_valid (p : Z) (d : TaggedAllocationDescriptor) :
  holds p d = true -> TAGGED_ALLOC_IS_VALID d = true.
Proof.
  unfold holds; now intros [H _]%andb_true_iff.
Qed.

(** ** Removal *)

(** C10: the removal scan clears at most one slot. When no valid slot holds
    the address the table is left as it is; otherwise the lowest-index
    valid slot holding the address becomes the empty sentinel and every
    other slot keeps its contents, also those holding the same address. *)
Theorem RemoveAllocation_scan_clears_lowest_match (p : Z) (st : state) :
  state_wf st ->
  exists st1,
    RemoveAllocation_scan p st = Ok st1
    /\ length (AllocationTable st1) = length (AllocationTable st)
    /\ ((forall i d, nth_error (AllocationTable st) i = Some d ->
                     holds p d = false)
        /\ AllocationTable st1 = AllocationTable st
        \/ exists i d,
             nth_error (AllocationTable st) i = Some d
             /\ holds p d = true
             /\ (forall j d', (j < i)%nat ->
                   nth_error (AllocationTable st) j = Some d' ->
                   holds p d' = false)
             /\ nth_error (AllocationTable st1) i = Some zero_descriptor
             /\ (forall j, j <> i ->
                   nth_error (AllocationTable st1) j =
                   nth_error (AllocationTable st) j)).
Proof.
  intros H; rewrite (RemoveAllocation_scan_spec p st H).
  eexists; split; [reflexivity|]; simpl.
  destruct (first_holding p (AllocationTable st)) as [j|] eqn:E.
  - split; [apply length_store|right].
    destruct (first_holding_Some p _ j E) as [[d [Hd Hh]] Hlow].
    exists j, d; repeat split; auto.
    + apply nth_error_store_eq; now apply (first_holding_lt p).
    + intros k Hk; apply nth_error_store_neq; congruence.
  - split; [reflexivity|left; split; [|reflexivity]].
    intros i d; now apply first_holding_None.
Qed.

Lemma RemoveAllocation_scan_clears_lowest_match_witness :
  state_wf gap_state
  /\ exists st1,
       RemoveAllocation_scan 4104 gap_state = Ok st1
       /\ nth_error (AllocationTable st1) 3 = Some zero_descriptor.
Proof.
  assert (W : state_wf gap_state)
    by wf_by_computation.
  split; [exact W|].
  destruct (RemoveAllocation_scan_clears_lowest_match 4104 gap_state W)
    as (st1 & E & _).
  exists st1; split; [exact E|].
  vm_compute in E; injection E as <-; reflexivity.
Defined.

(** C1, as the code has it: after the scan has decremented the live
    count, a resize to the table size less one shrink step is requested
    exactly when the decremented count is above the configured minimum
    and count plus shrink step is below the table size; otherwise the call
    returns with the table size unchanged. A requested size is above the
    minimum whenever the count is at most the table size. From a table of 96
    entries (step 64, minimum 32) no live count from 1 to 96 passes the
    test, so the table stays at 96 entries. *)
Theorem RemoveAllocation_shrink_test (P : platform) (p : Z) (st : state) :
  state_wf st ->
  let count := wrap (AllocationCount st - 1) in
  let tableSize := AllocationTableSize st in
  let requested :=
    TAGGED_ALLOC_MIN_TABLE_SIZE < count
    /\ wrap (count + TAGGED_ALLOC_TABLE_SHRINK_STEP) < tableSize in
  (requested ->
   RemoveAllocation P p st =
   (st1 <- RemoveAllocation_scan p st ;;
    ResizeAllocationTable P
      (wrap (tableSize - TAGGED_ALLOC_TABLE_SHRINK_STEP)) st1))
  /\ (~ requested ->
      exists st1, RemoveAllocation P p st = Ok st1
                  /\ AllocationTableSize st1 = tableSize
                  /\ AllocationCount st1 = count)
  /\ (requested -> count <= tableSize ->
      wrap (tableSize - TAGGED_ALLOC_TABLE_SHRINK_STEP) =
        tableSize - TAGGED_ALLOC_TABLE_SHRINK_STEP
      /\ TAGGED_ALLOC_MIN_TABLE_SIZE <
           tableSize - TAGGED_ALLOC_TABLE_SHRINK_STEP)
  /\ (tableSize = 96 -> 1 <= AllocationCount st <= 96 -> ~ requested).
Proof.
  intros W count tableSize requested.
  pose proof (RemoveAllocation_scan_spec p st W) as E.
  destruct W as (Hl & Hs & Hc).
  unfold RemoveAllocation; rewrite E; cbn [bind AllocationCount
    AllocationTableSize]; fold count tableSize.
  split; [|split; [|split]].
  - intros R; apply shrink_guard_true in R; now rewrite R.
  - intros R.
    destruct (shrink_guard count tableSize) eqn:G.
    + apply shrink_guard_true in G; contradiction.
    + eexists; split; [reflexivity|split; reflexivity].
  - intros [R1 R2] Hle.
    assert (Hc' : 0 <= count < size_t_modulus) by apply wrap_range.
    clearbody count; subst tableSize.
    unfold TAGGED_ALLOC_MIN_TABLE_SIZE, TAGGED_ALLOC_TABLE_SHRINK_STEP in *.
    assert (Hb : 96 < AllocationTableSize st).
    { destruct (Z_lt_le_dec (count + 64) size_t_modulus) as [Hlt|Hge].
      - rewrite wrap_small in R2 by lia; lia.
      - unfold size_t_modulus in *; lia. }
    split; [|lia].
    apply wrap_small; unfold size_t_modulus in *; lia.
  - intros H96 Hcount [R1 R2]; subst count tableSize.
    unfold TAGGED_ALLOC_MIN_TABLE_SIZE, TAGGED_ALLOC_TABLE_SHRINK_STEP in *.
    rewrite (wrap_small (AllocationCount st - 1)) in R1, R2
      by (unfold size_t_modulus; lia).
    rewrite wrap_small in R2 by (unfold size_t_modulus; lia).
    lia.
Qed.

Lemma RemoveAllocation_shrink_test_witness :
  state_wf state_96_32
  /\ exists st1, RemoveAllocation esp32 4096 state_96_32 = Ok st1
                 /\ AllocationTableSize st1 = 96
                 /\ AllocationCount st1 = 31.
Proof.
  assert (W : state_wf state_96_32)
    by wf_by_computation.
  split; [exact W|].
  destruct (RemoveAllocation_shrink_test esp32 4096 state_96_32 W)
    as (_ & N & _ & G).
  destruct (N (G eq_refl ltac:(simpl; lia))) as (st1 & E & Hs & Hc).
  exists st1; split; [exact E|split; [exact Hs|exact Hc]].
Defined.

(** C1 as stated fails: a table of 96 entries whose live count drops from
    32 to 31 has 65 free slots, more than one shrink step, and 96 - 64
    is not below the minimum 32, yet the table keeps its 96 entries. *)
Lemma RemoveAllocation_keeps_96_entries :
  exists st1,
    RemoveAllocation esp32 4096 state_96_32 = Ok st1
    /\ AllocationCount st1 = 31
    /\ TAGGED_ALLOC_TABLE_SHRINK_STEP
         < AllocationTableSize state_96_32 - AllocationCount st1
    /\ TAGGED_ALLOC_MIN_TABLE_SIZE
         <= AllocationTableSize state_96_32 - TAGGED_ALLOC_TABLE_SHRINK_STEP
    /\ AllocationTableSize st1 = AllocationTableSize state_96_32
    /\ AllocationTableSize st1 <>
         AllocationTableSize state_96_32 - TAGGED_ALLOC_TABLE_SHRINK_STEP.
Proof.
  eexists; split; [vm_compute; reflexivity|].
  vm_compute; repeat split; congruence.
Qed.

(** Where a shrink is due under either reading (160 entries, the live
    count dropping to 33), the request for 96 entries fails the assertion
    of [ResizeAllocationTable]. *)
Lemma RemoveAllocation_shrink_due_aborts :
  RemoveAllocation lenient 4096 state_160_34 = AssertFail.
Proof.
  vm_compute; reflexivity.
Qed.




(** ** The fragmentation scan *)

Lemma IsAllocationTableFragmented_loop_found (t : table) (k : nat) :
  forall (index : Z) (entry : nat) (reached : bool) (fe fv fe' fv' : Z),
    IsAllocationTableFragmented_loop k index entry t reached fe fv
      = Ok (true, fe', fv') ->
    index <= fv' < index + Z.of_nat k
    /\ (exists d, nth_error t (entry + Z.to_nat (fv' - index)) = Some d
                  /\ TAGGED_ALLOC_IS_VALID d = true)
    /\ (if reached then fe' = fe
        else index <= fe' < fv'
             /\ forall d, nth_error t entry = Some d ->
                  if TAGGED_ALLOC_IS_VALID d then index < fe'
                  else fe' = index).
Proof.
  induction k as [|k IH]; intros index entry reached fe fv fe' fv' H;
    cbn [IsAllocationTableFragmented_loop] in H; [discriminate|].
  destruct (nth_error t entry) as [d|] eqn:Hd; [|discriminate].
  cbv zeta in H.
  destruct (TAGGED_ALLOC_IS_VALID d) eqn:Hv, reached; cbn [andb negb] in H.
  - injection H as <- <-.
    split; [lia|split; [|reflexivity]].
    exists d; rewrite Z.sub_diag, Nat.add_0_r; auto.
  - apply IH in H; destruct H as (Hr & (d' & Hd' & Hv') & Hlo & _).
    split; [lia|split].
    + exists d'; split; [|exact Hv'].
      replace (entry + Z.to_nat (fv' - index))%nat
        with (S entry + Z.to_nat (fv' - (index + 1)))%nat by lia.
      exact Hd'.
    + split; [lia|].
      intros d0 E; injection E as <-; rewrite Hv; lia.
  - apply IH in H; destruct H as (Hr & (d' & Hd' & Hv') & Hfe).
    split; [lia|split; [|exact Hfe]].
    exists d'; split; [|exact Hv'].
    replace (entry + Z.to_nat (fv' - index))%nat
      with (S entry + Z.to_nat (fv' - (index + 1)))%nat by lia.
    exact Hd'.
  - apply IH in H; destruct H as (Hr & (d' & Hd' & Hv') & Hfe).
    split; [lia|split].
    + exists d'; split; [|exact Hv'].
      replace (entry + Z.to_nat (fv' - index))%nat
        with (S entry + Z.to_nat (fv' - (index + 1)))%nat by lia.
      exact Hd'.
    + split; [lia|].
      intros d0 E; injection E as <-; rewrite Hv; exact Hfe.
Qed.

Lemma IsAllocationTableFragmented_loop_outcome (t : table) (k : nat) :
  forall (index : Z) (entry : nat) (reached : bool) (fe fv : Z),
    IsAllocationTableFragmented_loop k index entry t reached fe fv
      <> Diverges
    /\ IsAllocationTableFragmented_loop k index entry t reached fe fv
      <> AssertFail
    /\ ((entry + k <= length t)%nat ->
        IsAllocationTableFragmented_loop k index entry t reached fe fv
          <> OutOfBounds).
Proof.
  induction k as [|k IH]; intros index entry reached fe fv;
    cbn [IsAllocationTableFragmented_loop].
  - repeat split; discriminate.
  - destruct (nth_error t entry) as [d|] eqn:Hd.
    + cbv zeta.
      destruct (TAGGED_ALLOC_IS_VALID d && reached);
        [repeat split; discriminate|].
      destruct (negb (TAGGED_ALLOC_IS_VALID d)); [destruct (negb reached)|];
        (split; [apply IH|split; [apply IH|]]);
        intros Hlen; apply IH; lia.
    + split; [discriminate|split; [discriminate|]].
      intros Hlen; apply nth_error_None in Hd; lia.
Qed.

(** ** Defragmentation returns *)

Lemma head_valid_store (n : nat) (d : TaggedAllocationDescriptor) (t : table) :
  (1 <= n)%nat -> head_valid (store n d t) = head_valid t.
Proof.
  destruct t, n; simpl; auto; lia.
Qed.

Lemma head_valid_nth (t : table) :
  head_valid t =
  match nth_error t 0 with
  | Some d => TAGGED_ALLOC_IS_VALID d
  | None => false
  end.
Proof.
  now destruct t.
Qed.

Lemma store_checked_Ok (n : nat) (d : TaggedAllocationDescriptor) (t : table) :
  (n < length t)%nat -> store_checked n d t = Ok (store n d t).
Proof.
  intros H; unfold store_checked.
  now apply Nat.ltb_lt in H; rewrite H.
Qed.

Lemma store_checked_not_Diverges (n : nat) (d : TaggedAllocationDescriptor)
    (t : table) :
  store_checked n d t = Ok (store n d t) \/ store_checked n d t = OutOfBounds.
Proof.
  unfold store_checked; destruct (n <? length t)%nat; auto.
Qed.

Lemma DefragAllocationTable_loop_returns (fuel : nat) :
  forall (fe fv : Z) (st : state),
    0 <= fe ->
    (fe = 0 \/ head_valid (AllocationTable st) = true) ->
    (Z.to_nat (AllocationTableSize st - fe)
     + (if head_valid (AllocationTable st) then 0 else 1) < fuel)%nat ->
    DefragAllocationTable_loop fuel fe fv st <> Diverges
    /\ ((Z.to_nat (AllocationTableSize st) <= length (AllocationTable st))%nat ->
        fe < AllocationTableSize st ->
        exists st',
          DefragAllocationTable_loop fuel fe fv st = Ok st'
          /\ AllocationTableSize st' = AllocationTableSize st
          /\ AllocationCount st' = AllocationCount st
          /\ length (AllocationTable st') = length (AllocationTable st)).
Proof.
  induction fuel as [|fuel IH]; intros fe fv [count size t] Hfe Hinv Hm;
    [lia|].
  cbn [AllocationTable AllocationTableSize AllocationCount] in *.
  cbn [DefragAllocationTable_loop]; unfold IsAllocationTableFragmented.
  cbn [AllocationTable AllocationTableSize AllocationCount].
  destruct (fe <? size) eqn:Hlt; cbn [assert bind].
  2:{ split; [discriminate|]; intros _ H; apply Z.ltb_ge in Hlt; lia. }
  apply Z.ltb_lt in Hlt.
  destruct (IsAllocationTableFragmented_loop_outcome t
              (Z.to_nat (size - fe)) fe 0 false fe fv) as (ND & NA & NO).
  destruct (IsAllocationTableFragmented_loop (Z.to_nat (size - fe)) fe 0 t
              false fe fv) as [[[b fe'] fv']| | |] eqn:EL;
    cbn [bind]; try congruence.
  2:{ split; [discriminate|]; intros Hlen _; exfalso.
      apply NO; [lia|reflexivity]. }
  destruct b.
  2:{ split; [discriminate|]; intros _ _; eexists; repeat split. }
  apply IsAllocationTableFragmented_loop_found in EL.
  destruct EL as (Hfv & (d' & Hd' & Hv') & Hfe' & Hhead).
  rewrite Nat.add_0_l in Hd'.
  destruct (nth_error t (Z.to_nat fv')) as [d|] eqn:Hd.
  2:{ split; [discriminate|]; intros Hlen _.
      apply nth_error_None in Hd; lia. }
  assert (Hne : t <> []) by (intros ->; destruct (Z.to_nat fv'); discriminate).
  assert (Hnext :
    (fe' = 0 \/ head_valid
       (store (Z.to_nat fv') zero_descriptor (store (Z.to_nat fe') d t)) = true)
    /\ (Z.to_nat (size - fe')
        + (if head_valid
                (store (Z.to_nat fv') zero_descriptor (store (Z.to_nat fe') d t))
           then 0 else 1) < fuel)%nat).
  { rewrite head_valid_store by lia.
    rewrite head_valid_nth in Hinv, Hm |- *.
    destruct t as [|d0 t0]; [congruence|]; cbn [nth_error] in Hinv, Hm.
    specialize (Hhead d0 eq_refl).
    destruct (TAGGED_ALLOC_IS_VALID d0) eqn:Hv0.
    - rewrite nth_error_store_neq by lia; cbn [nth_error]; rewrite Hv0.
      split; [now right|lia].
    - assert (fe = 0) by (destruct Hinv; congruence); subst fe fe'.
      replace (fv' - 0) with fv' in Hd' by lia.
      assert (d = d') by congruence; subst d'.
      cbn [Z.to_nat store nth_error]; rewrite Hv'.
      split; [now left|lia]. }
  destruct Hnext as [Hinv' Hm'].
  destruct (store_checked_not_Diverges (Z.to_nat fe') d t) as [E1|E1];
    rewrite E1; cbn [bind].
  2:{ split; [discriminate|]; intros Hlen _.
      rewrite store_checked_Ok in E1 by lia; discriminate. }
  destruct (store_checked_not_Diverges (Z.to_nat fv') zero_descriptor
              (store (Z.to_nat fe') d t)) as [E2|E2];
    rewrite E2; cbn [bind].
  2:{ split; [discriminate|]; intros Hlen _.
      rewrite store_checked_Ok in E2 by (rewrite length_store; lia).
      discriminate. }
  destruct (IH fe' fv'
              (mkState count size
                 (store (Z.to_nat fv') zero_descriptor
                    (store (Z.to_nat fe') d t)))
              ltac:(lia) Hinv' Hm') as [IH1 IH2].
  split; [exact IH1|].
  intros Hlen _.
  cbn [AllocationTable AllocationTableSize AllocationCount] in IH2.
  rewrite !length_store in IH2.
  destruct (IH2 Hlen ltac:(lia)) as (st' & E & Hs & Hc & Hl).
  exists st'; auto.
Qed.

(** The [while] loop of [DefragAllocationTable] always ends within the
    fuel it is given, and on a table that fills its buffer it returns,
    the table size, the count and the buffer length unchanged. *)
Lemma DefragAllocationTable_returns (st : state) :
  DefragAllocationTable st <> Diverges
  /\ (state_wf st -> 0 < AllocationTableSize st ->
      exists st',
        DefragAllocationTable st = Ok st'
        /\ AllocationTableSize st' = AllocationTableSize st
        /\ AllocationCount st' = AllocationCount st
        /\ length (AllocationTable st') = length (AllocationTable st)).
Proof.
  unfold DefragAllocationTable.
  destruct (DefragAllocationTable_loop_returns
              (Z.to_nat (AllocationTableSize st) + 2) 0 0 st) as [H1 H2].
  - lia.
  - now left.
  - rewrite Z.sub_0_r; destruct (head_valid (AllocationTable st)); lia.
  - split; [exact H1|].
    intros W Hpos; apply H2; [|exact Hpos].
    rewrite (table_length_of_wf st W); lia.
Qed.

(** ** Resizing *)

(** C3, on the code: the assertion at the head of [ResizeAllocationTable]
    fails for every requested size at or above the configured minimum,
    and lets every size below the minimum through: on a table that fills
    its buffer, with [realloc] returning a buffer, such a call returns. *)
Theorem ResizeAllocationTable_assertion_inverted
    (P : platform) (n : Z) (st : state) :
  (TAGGED_ALLOC_MIN_TABLE_SIZE <= n ->
   ResizeAllocationTable P n st = AssertFail)
  /\ (0 <= n < TAGGED_ALLOC_MIN_TABLE_SIZE ->
      state_wf st ->
      realloc_succeeds P (wrap (n * sizeof_descriptor)) = true ->
      exists st', ResizeAllocationTable P n st = Ok st').
Proof.
  split; [apply ResizeAllocationTable_at_or_above_minimum|].
  intros Hn W HR; unfold ResizeAllocationTable.
  destruct (n <? TAGGED_ALLOC_MIN_TABLE_SIZE) eqn:E;
    [|apply Z.ltb_ge in E; lia].
  cbn [assert bind].
  destruct (n =? AllocationTableSize st) eqn:Eq; cbn [negb];
    [eexists; reflexivity|].
  destruct (n <? AllocationTableSize st) eqn:Elt.
  - apply Z.ltb_lt in Elt.
    destruct (DefragAllocationTable_returns st) as [_ D].
    destruct (D W ltac:(lia)) as (st' & ED & _).
    rewrite ED; cbn [bind]; rewrite HR; cbn [assert bind].
    eexists; reflexivity.
  - cbn [bind]; rewrite HR; cbn [assert bind]; eexists; reflexivity.
Qed.

Lemma ResizeAllocationTable_assertion_inverted_witness :
  ResizeAllocationTable lenient 96 fresh_state = AssertFail
  /\ exists st', ResizeAllocationTable lenient 16 fresh_state = Ok st'.
Proof.
  assert (W : state_wf fresh_state)
    by wf_by_computation.
  split.
  - apply (ResizeAllocationTable_assertion_inverted lenient 96 fresh_state).
    unfold TAGGED_ALLOC_MIN_TABLE_SIZE; lia.
  - apply (ResizeAllocationTable_assertion_inverted lenient 16 fresh_state).
    + unfold TAGGED_ALLOC_MIN_TABLE_SIZE; lia.
    + exact W.
    + reflexivity.
Defined.

(** The two call sites of [ResizeAllocationTable] never ask for the
    current size: one expand step more and one shrink step less differ
    from it for every [size_t] value. *)
Lemma ResizeAllocationTable_callers_change_size (tableSize : Z) :
  0 <= tableSize < size_t_modulus ->
  wrap (tableSize + TAGGED_ALLOC_TABLE_EXPAND_STEP) <> tableSize
  /\ wrap (tableSize - TAGGED_ALLOC_TABLE_SHRINK_STEP) <> tableSize.
Proof.
  unfold wrap, size_t_modulus, TAGGED_ALLOC_TABLE_EXPAND_STEP,
    TAGGED_ALLOC_TABLE_SHRINK_STEP; intros H.
  split; Z.div_mod_to_equations; lia.
Qed.



(** A resize that goes through records the byte size of the new buffer
    as the table size, while the buffer holds the requested entries. *)
Lemma ResizeAllocationTable_stores_byte_size
    (P : platform) (n : Z) (st st' : state) :
  0 <= n -> n <> AllocationTableSize st ->
  ResizeAllocationTable P n st = Ok st' ->
  AllocationTableSize st' = n * sizeof_descriptor
  /\ Z.of_nat (length (AllocationTable st')) = n.
Proof.
  intros Hn Hne E; unfold ResizeAllocationTable in E.
  destruct (n <? TAGGED_ALLOC_MIN_TABLE_SIZE) eqn:Hlt;
    cbn [assert bind] in E; [|discriminate].
  apply Z.ltb_lt in Hlt; apply Z.eqb_neq in Hne; rewrite Hne in E.
  cbn [negb] in E.
  assert (Hw : wrap (n * sizeof_descriptor) = n * sizeof_descriptor).
  { apply wrap_small.
    unfold TAGGED_ALLOC_MIN_TABLE_SIZE, sizeof_descriptor, size_t_modulus
      in *; lia. }
  rewrite Hw in E.
  destruct (if n <? AllocationTableSize st
            then DefragAllocationTable st else Ok st) as [st1| | |];
    cbn [bind] in E; try discriminate.
  destruct (realloc_succeeds P (n * sizeof_descriptor));
    cbn [assert bind] in E; [|discriminate].
  injection E as <-; cbn [AllocationTableSize AllocationTable].
  split; [reflexivity|].
  unfold realloc_buffer; rewrite length_map, length_seq.
  unfold sizeof_descriptor; rewrite Z.div_mul by lia; lia.
Qed.

(** ** Insertion *)

(** C2, on the code: an insertion that finds no empty slot requests one
    growth step, and that request ends in the failed assertion of
    [ResizeAllocationTable]; nothing is inserted. *)
Theorem InsertAllocation_full_table_aborts
    (P : platform) (ta : TaggedAllocationDescriptor) (st : state) :
  GetFirstEmptySlot 0 st = Ok (false, 0) ->
  0 <= AllocationTableSize st ->
  AllocationTableSize st + TAGGED_ALLOC_TABLE_EXPAND_STEP < size_t_modulus ->
  InsertAllocation P ta st = AssertFail.
Proof.
  intros H H0 Hmax; unfold InsertAllocation; rewrite H; cbn [bind fst negb].
  rewrite ResizeAllocationTable_at_or_above_minimum; [reflexivity|].
  unfold TAGGED_ALLOC_TABLE_EXPAND_STEP, TAGGED_ALLOC_MIN_TABLE_SIZE in *.
  rewrite wrap_small; lia.
Qed.

Lemma InsertAllocation_full_table_aborts_witness :
  GetFirstEmptySlot 0 full_state = Ok (false, 0)
  /\ InsertAllocation esp32 (rec 8192 4 0) full_state = AssertFail.
Proof.
  assert (H : GetFirstEmptySlot 0 full_state = Ok (false, 0))
    by (vm_compute; reflexivity).
  split; [exact H|].
  apply (InsertAllocation_full_table_aborts esp32 (rec 8192 4 0) full_state H).
  - simpl; lia.
  - simpl; unfold size_t_modulus; lia.
Defined.

(** ** Defragmentation *)

(** C4, on the code: on the six-slot table with records in slots 0, 2, 3,
    4, 5 the pass returns a table whose valid records are in slots 0, 1,
    3, 5: it is not compact, and the record at address 4104 is gone. *)
Theorem DefragAllocationTable_loses_record :
  exists st',
    DefragAllocationTable gap_state = Ok st'
    /\ AllocationTable st' =
         [ rec 4096 4 0; rec 4100 4 0; zero_descriptor; rec 4108 4 0;
           zero_descriptor; rec 4112 4 0 ]
    /\ is_compact (AllocationTable st') = false
    /\ valid_count (AllocationTable gap_state) = 5
    /\ valid_count (AllocationTable st') = 4
    /\ existsb (holds 4104) (AllocationTable gap_state) = true
    /\ existsb (holds 4104) (AllocationTable st') = false.
Proof.
  eexists; split; [vm_compute; reflexivity|].
  repeat split; vm_compute; reflexivity.
Qed.

(** ** Total size *)

Lemma GetTotalSize_loop_spec (pre suf : table) (totalSize : Z) :
  0 <= totalSize < size_t_modulus ->
  GetTotalSize_loop (length suf) (length pre) (pre ++ suf) totalSize =
  Ok (wrap (totalSize + sum_live_sizes suf)).
Proof.
  revert pre totalSize; induction suf as [|d suf IH]; intros pre acc Hacc.
  - cbn [length GetTotalSize_loop sum_live_sizes].
    now rewrite Z.add_0_r, wrap_small.
  - cbn [length GetTotalSize_loop sum_live_sizes].
    rewrite nth_error_middle, snoc_app, <- (length_snoc pre d).
    destruct (TAGGED_ALLOC_IS_VALID d).
    + rewrite IH by apply wrap_range.
      f_equal; unfold wrap.
      rewrite Zplus_mod_idemp_l; f_equal; lia.
    + rewrite IH by exact Hacc; f_equal.
Qed.

Lemma sum_live_sizes_live_records (t : table) :
  sum_live_sizes t = fold_right Z.add 0 (map Size (live_records t)).
Proof.
  unfold live_records; induction t as [|d t IH]; [reflexivity|].
  cbn [sum_live_sizes filter].
  destruct (TAGGED_ALLOC_IS_VALID d); cbn [map fold_right]; lia.
Qed.

Lemma sum_live_sizes_Permutation (t t' : table) :
  Permutation t t' -> sum_live_sizes t = sum_live_sizes t'.
Proof.
  induction 1; cbn [sum_live_sizes]; lia.
Qed.

Lemma GetTotalSize_spec (st : state) :
  state_wf st ->
  GetTotalSize st = Ok (wrap (sum_live_sizes (AllocationTable st))).
Proof.
  intros W; unfold GetTotalSize; rewrite (table_length_of_wf st W).
  pose proof (GetTotalSize_loop_spec [] (AllocationTable st) 0) as E.
  cbn [length app] in E; rewrite E; [reflexivity|].
  unfold size_t_modulus; lia.
Qed.

(** C8, as the code has it: on a table that fills its buffer,
    [GetTotalSize] returns the sum of [Size] over the valid records
    reduced modulo 2^32, hence the sum itself whenever the sum is a
    [size_t] value. Only the records count: any rearrangement of the
    slots gives the same total, and neither the table size nor the empty
    slots contribute. *)
Theorem GetTotalSize_sums_live_sizes (st : state) :
  state_wf st ->
  let total := fold_right Z.add 0 (map Size (live_records (AllocationTable st))) in
  GetTotalSize st = Ok (wrap total)
  /\ (0 <= total < size_t_modulus -> GetTotalSize st = Ok total)
  /\ (forall st', state_wf st' ->
        Permutation (AllocationTable st) (AllocationTable st') ->
        GetTotalSize st' = GetTotalSize st).
Proof.
  intros W total.
  assert (E : GetTotalSize st = Ok (wrap total)).
  { rewrite (GetTotalSize_spec st W); unfold total.
    now rewrite sum_live_sizes_live_records. }
  split; [exact E|split].
  - intros Hr; now rewrite E, wrap_small.
  - intros st' W' HP.
    rewrite (GetTotalSize_spec st W), (GetTotalSize_spec st' W').
    now rewrite (sum_live_sizes_Permutation _ _ HP).
Qed.

Lemma GetTotalSize_sums_live_sizes_witness :
  state_wf gap_state /\ GetTotalSize gap_state = Ok 20.
Proof.
  assert (W : state_wf gap_state) by wf_by_computation.
  split; [exact W|].
  destruct (GetTotalSize_sums_live_sizes gap_state W) as (_ & E & _).
  apply E; wf_by_computation.
Defined.

(** C8 as stated fails on a table of three slots whose two valid records
    have sizes 2^32 - 1 and 2: their sizes add up to 2^32 + 1, and the
    total returned is 1. *)
Lemma GetTotalSize_wraps :
  state_wf wrapping_state
  /\ fold_right Z.add 0
       (map Size (live_records (AllocationTable wrapping_state)))
     = 4294967297
  /\ GetTotalSize wrapping_state = Ok 1
  /\ GetTotalSize wrapping_state <> Ok 4294967297.
Proof.
  split; [wf_by_computation|].
  split; [reflexivity|split; [reflexivity|vm_compute; congruence]].
Qed.

(** ** The report *)

Lemma PrintStats_loop_in_range (pre suf : table) :
  PrintStats_loop (length suf) (length pre) (pre ++ suf) =
  (flat_map PrintStats_record (live_records suf), Ok tt).
Proof.
  revert pre; induction suf as [|d suf IH]; intros pre; [reflexivity|].
  cbn [length PrintStats_loop].
  rewrite nth_error_middle, snoc_app, <- (length_snoc pre d), IH.
  unfold live_records; cbn [filter].
  destruct (TAGGED_ALLOC_IS_VALID d); reflexivity.
Qed.

Lemma PrintStats_loop_past_end (pre suf : table) (m : nat) :
  PrintStats_loop (length suf + S m) (length pre) (pre ++ suf) =
  (flat_map PrintStats_record (live_records suf), OutOfBounds).
Proof.
  revert pre; induction suf as [|d suf IH]; intros pre.
  - cbn [length Nat.add PrintStats_loop]; rewrite app_nil_r.
    now rewrite (proj2 (nth_error_None pre (length pre)) (Nat.le_refl _)).
  - cbn [length Nat.add PrintStats_loop].
    rewrite nth_error_middle, snoc_app, <- (length_snoc pre d), IH.
    unfold live_records; cbn [filter].
    destruct (TAGGED_ALLOC_IS_VALID d); reflexivity.
Qed.

Lemma copy_table_whole (st : state) :
  state_wf st ->
  AllocationTableSize st * sizeof_descriptor < size_t_modulus ->
  copy_table (wrap (AllocationTableSize st * sizeof_descriptor))
             (AllocationTable st) = Ok (AllocationTable st).
Proof.
  intros W Hb; pose proof (table_length_of_wf st W) as Hl.
  destruct W as (Hlen & _).
  unfold copy_table, sizeof_descriptor in *.
  rewrite wrap_small by lia.
  rewrite Z.div_mul by lia; rewrite Hl, Nat.leb_refl.
  now rewrite firstn_all.
Qed.

Lemma PrintStats_spec (st : state) :
  state_wf st ->
  AllocationTableSize st * sizeof_descriptor < size_t_modulus ->
  PrintStats st =
  (PrintStats_banner ++ PrintStats_summary (AllocationCount st)
     ++ flat_map PrintStats_record (live_records (AllocationTable st)),
   if 0 <? AllocationTableSize st then OutOfBounds else Ok tt).
Proof.
  intros W Hb; unfold PrintStats.
  rewrite (copy_table_whole st W Hb).
  pose proof (table_length_of_wf st W) as Hl.
  destruct W as (Hlen & _).
  unfold sizeof_descriptor in *; rewrite wrap_small by lia.
  destruct (0 <? AllocationTableSize st) eqn:Hpos.
  - apply Z.ltb_lt in Hpos.
    replace (Z.to_nat (AllocationTableSize st * 16))
      with (length (AllocationTable st)
            + S (Z.to_nat (AllocationTableSize st * 15 - 1)))%nat by lia.
    pose proof (PrintStats_loop_past_end [] (AllocationTable st)
                  (Z.to_nat (AllocationTableSize st * 15 - 1))) as E.
    cbn [length app] in E; now rewrite E.
  - apply Z.ltb_ge in Hpos.
    replace (Z.to_nat (AllocationTableSize st * 16))
      with (length (AllocationTable st)) by lia.
    pose proof (PrintStats_loop_in_range [] (AllocationTable st)) as E.
    cbn [length app] in E; now rewrite E.
Qed.

(** The printing loop is bounded by the byte size of the table, so on
    every non-empty table it reads past the end of the copy. *)
Lemma PrintStats_reads_past_copy (st : state) :
  state_wf st ->
  AllocationTableSize st * sizeof_descriptor < size_t_modulus ->
  0 < AllocationTableSize st ->
  snd (PrintStats st) = OutOfBounds.
Proof.
  intros W Hb Hpos; rewrite (PrintStats_spec st W Hb); cbn [snd].
  now apply Z.ltb_lt in Hpos; rewrite Hpos.
Qed.

(** C9, as the code has it: while the loop index is below the table's
    entry count the report has one line per valid record, in slot order,
    and none for an empty slot, and these lines follow the banner and the
    summary in the output of [PrintStats]. A line carries the four tag
    bytes as written, the size in decimal, the record's creation time in
    seconds (its [millis()] stamp over 1000.0, not the time elapsed since)
    and the address in hexadecimal. *)
Theorem PrintStats_reports_live_records (st : state) :
  state_wf st ->
  AllocationTableSize st * sizeof_descriptor < size_t_modulus ->
  let lines :=
    flat_map PrintStats_record (live_records (AllocationTable st)) in
  PrintStats_loop (Z.to_nat (AllocationTableSize st)) 0 (AllocationTable st)
    = (lines, Ok tt)
  /\ fst (PrintStats st) =
       PrintStats_banner ++ PrintStats_summary (AllocationCount st) ++ lines
  /\ forall ptr size a b c d now,
       PrintStats_record (mkDescriptor ptr size (a, b, c, d) now) =
       [ print_str "Tag: "; write_bytes [a; b; c; d];
         print_str ", Size: "; print_dec size;
         print_str ", Time: "; print_seconds now;
         print_str ", Pointer: 0x"; print_hex (wrap ptr);
         println_str "" ].
Proof.
  intros W Hb lines; split; [|split].
  - rewrite (table_length_of_wf st W).
    apply (PrintStats_loop_in_range [] (AllocationTable st)).
  - now rewrite (PrintStats_spec st W Hb).
  - reflexivity.
Qed.

Lemma PrintStats_reports_live_records_witness :
  state_wf gap_state
  /\ AllocationTableSize gap_state * sizeof_descriptor < size_t_modulus
  /\ PrintStats_loop 6 0 gap_table =
       (flat_map PrintStats_record
          [ rec 4096 4 0; rec 4100 4 0; rec 4104 4 0; rec 4108 4 0;
            rec 4112 4 0 ], Ok tt).
Proof.
  assert (W : state_wf gap_state) by wf_by_computation.
  assert (Hb : AllocationTableSize gap_state * sizeof_descriptor
               < size_t_modulus) by wf_by_computation.
  split; [exact W|split; [exact Hb|]].
  exact (proj1 (PrintStats_reports_live_records gap_state W Hb)).
Defined.

(** C9 as stated fails on a table of one record created at 5000 ms and
    dumped at 9000 ms: the line shows the creation time, 5000 ms, where
    the time elapsed since creation is 4000 ms, and the loop goes on past
    the single entry of the copy. *)
Lemma PrintStats_one_record :
  PrintStats one_record_state =
    (PrintStats_banner ++ PrintStats_summary 1
       ++ PrintStats_record (rec 4096 16 5000), OutOfBounds)
  /\ In (print_seconds 5000) (PrintStats_record (rec 4096 16 5000))
  /\ In (print_seconds 4000) (Dump_record_spec 9000 (rec 4096 16 5000))
  /\ PrintStats_record (rec 4096 16 5000)
     <> Dump_record_spec 9000 (rec 4096 16 5000).
Proof.
  split; [vm_compute; reflexivity|].
  split; [simpl; tauto|].
  split; [vm_compute; tauto|].
  vm_compute; congruence.
Qed.

(** ** Runs of public calls on the initial table *)

Lemma remove_first_length (p : Z) (l : list Z) :
  existsb (Z.eqb p) l = true -> S (length (remove_first p l)) = length l.
Proof.
  induction l as [|x l IH]; cbn [existsb remove_first]; [discriminate|].
  rewrite (Z.eqb_sym p x); destruct (x =? p); cbn [orb length]; [reflexivity|].
  intros H; now rewrite (IH H).
Qed.

Lemma remove_first_Permutation (p : Z) (l : list Z) :
  existsb (Z.eqb p) l = true -> Permutation l (p :: remove_first p l).
Proof.
  induction l as [|x l IH]; cbn [existsb remove_first]; [discriminate|].
  rewrite (Z.eqb_sym p x); destruct (x =? p) eqn:E; cbn [orb].
  - apply Z.eqb_eq in E; subst x; reflexivity.
  - intros H; rewrite perm_swap; apply perm_skip; auto.
Qed.

Lemma InsertAllocation_step
    (P : platform) (ta : TaggedAllocationDescriptor) (st : state) :
  state_wf st ->
  TAGGED_ALLOC_MIN_TABLE_SIZE
    <= wrap (AllocationTableSize st + TAGGED_ALLOC_TABLE_EXPAND_STEP) ->
  InsertAllocation P ta st =
  match first_empty (AllocationTable st) with
  | Some j =>
    Ok (mkState (wrap (AllocationCount st + 1)) (AllocationTableSize st)
          (store j ta (AllocationTable st)))
  | None => AssertFail
  end.
Proof.
  intros W Hg; unfold InsertAllocation.
  rewrite (GetFirstEmptySlot_spec 0 st W).
  destruct (first_empty (AllocationTable st)) as [j|] eqn:E;
    cbn [bind fst snd negb].
  - rewrite (GetFirstEmptySlot_spec (Z.of_nat j) st W), E.
    cbn [bind fst snd assert]; rewrite Nat2Z.id.
    rewrite store_checked_Ok; [reflexivity|].
    destruct (first_empty_Some _ j E) as (d & Hd & _).
    apply nth_error_Some; congruence.
  - now rewrite ResizeAllocationTable_at_or_above_minimum.
Qed.

Lemma Free_step (P : platform) (p : Z) (st : state) :
  state_wf st ->
  shrink_guard (wrap (AllocationCount st - 1)) (AllocationTableSize st)
    = false ->
  Free P p st =
  Ok (mkState (wrap (AllocationCount st - 1)) (AllocationTableSize st)
        (match first_holding p (AllocationTable st) with
         | Some j => store j zero_descriptor (AllocationTable st)
         | None => AllocationTable st
         end)).
Proof.
  intros W G; unfold Free, RemoveAllocation.
  rewrite (RemoveAllocation_scan_spec p st W).
  cbn [bind AllocationCount AllocationTableSize]; now rewrite G.
Qed.

Lemma shrink_guard_initial_size (count : Z) :
  1 <= count <= TAGGED_ALLOC_INITIAL_TABLE_SIZE ->
  shrink_guard (wrap (count - 1)) TAGGED_ALLOC_INITIAL_TABLE_SIZE = false.
Proof.
  intros H; destruct (shrink_guard _ _) eqn:G; [|reflexivity].
  apply shrink_guard_true in G; destruct G as [G1 G2].
  unfold TAGGED_ALLOC_INITIAL_TABLE_SIZE, TAGGED_ALLOC_MIN_TABLE_SIZE,
    TAGGED_ALLOC_TABLE_SHRINK_STEP in *.
  rewrite (wrap_small (count - 1)) in G1, G2 by (unfold size_t_modulus; lia).
  rewrite wrap_small in G2 by (unfold size_t_modulus; lia).
  lia.
Qed.

Lemma step_run_invariant (P : platform) (c : call) (st st' : state)
    (live : list Z) :
  run_invariant st live ->
  frees_matched_from live [c] = true ->
  step P c st = Ok st' ->
  run_invariant st' (outstanding_from live [c]).
Proof.
  intros (W & Hs & Hc & Hv) Hm E.
  pose proof W as (Hl & Hlt & Hr).
  pose proof (valid_count_bounds (AllocationTable st)) as Hvb.
  destruct c as [sizeofT count tag now ptr|object];
    cbn [step frees_matched_from outstanding_from] in *.
  - unfold AllocateInternal in E; cbn [Object] in E.
    destruct (ptr =? 0) eqn:Hp; cbn [negb assert bind] in E; [discriminate|].
    rewrite (InsertAllocation_step P _ st W) in E
      by (rewrite Hs; vm_compute; congruence).
    destruct (first_empty (AllocationTable st)) as [j|] eqn:Ej;
      cbn [bind] in E; [|discriminate].
    injection E as <-.
    destruct (first_empty_Some _ j Ej) as (d & Hd & Hdv).
    pose proof (valid_count_store j d
      (mkDescriptor ptr (wrap (sizeofT * count)) tag now) _ Hd) as Hvs.
    rewrite Hdv in Hvs.
    replace (TAGGED_ALLOC_IS_VALID
               (mkDescriptor ptr (wrap (sizeofT * count)) tag now))
      with true in Hvs by (unfold TAGGED_ALLOC_IS_VALID; cbn; now rewrite Hp).
    pose proof (valid_count_bounds
      (store j (mkDescriptor ptr (wrap (sizeofT * count)) tag now)
         (AllocationTable st))) as Hvb'.
    rewrite length_store in Hvb'.
    assert (Hw : wrap (AllocationCount st + 1) = AllocationCount st + 1)
      by (apply wrap_small; lia).
    unfold run_invariant, state_wf;
      cbn [AllocationTable AllocationTableSize AllocationCount length].
    rewrite Hw, length_store.
    repeat split; try lia.
  - apply andb_true_iff in Hm; destruct Hm as [Hin _].
    pose proof (remove_first_length object live Hin) as Hrl.
    assert (G : shrink_guard (wrap (AllocationCount st - 1))
                  (AllocationTableSize st) = false).
    { rewrite Hs; apply shrink_guard_initial_size; rewrite <- Hs; lia. }
    rewrite (Free_step P object st W G) in E; injection E as <-.
    assert (Hw : wrap (AllocationCount st - 1) = AllocationCount st - 1)
      by (apply wrap_small; lia).
    unfold run_invariant, state_wf;
      cbn [AllocationTable AllocationTableSize AllocationCount].
    rewrite Hw.
    destruct (first_holding object (AllocationTable st)) as [j|] eqn:Ej.
    + destruct (first_holding_Some object _ j Ej) as [(d & Hd & Hh) _].
      pose proof (valid_count_store j d zero_descriptor _ Hd) as Hvs.
      rewrite (holds_valid object d Hh) in Hvs.
      replace (TAGGED_ALLOC_IS_VALID zero_descriptor) with false in Hvs
        by reflexivity.
      rewrite length_store; repeat split; try lia.
    + repeat split; try lia.
Qed.

Lemma run_run_invariant (P : platform) (cs : list call) :
  forall (st st' : state) (live : list Z),
    run_invariant st live ->
    frees_matched_from live cs = true ->
    run P cs st = Ok st' ->
    run_invariant st' (outstanding_from live cs).
Proof.
  induction cs as [|c cs IH]; intros st st' live HI Hm E.
  - cbn in E; injection E as <-; exact HI.
  - cbn [run] in E.
    destruct (step P c st) as [st1| | |] eqn:E1; cbn [bind] in E;
      try discriminate.
    assert (Hm1 : frees_matched_from live [c] = true
                  /\ frees_matched_from (outstanding_from live [c]) cs = true).
    { destruct c; cbn [frees_matched_from outstanding_from] in *; auto.
      apply andb_true_iff in Hm; destruct Hm as [-> ->]; auto. }
    destruct Hm1 as [Hm1 Hm2].
    pose proof (step_run_invariant P c st st1 live HI Hm1 E1) as HI1.
    replace (outstanding_from live (c :: cs))
      with (outstanding_from (outstanding_from live [c]) cs)
      by (destruct c; reflexivity).
    exact (IH st1 st' _ HI1 Hm2 E).
Qed.

Lemma Init_run_invariant (mem : nat -> TaggedAllocationDescriptor) :
  run_invariant (Init mem) [].
Proof.
  unfold run_invariant, state_wf, Init;
    cbn [AllocationTable AllocationTableSize AllocationCount length].
  rewrite length_map, length_seq, Z2Nat.id by (vm_compute; congruence).
  pose proof (valid_count_bounds
    (map mem (seq 0 (Z.to_nat TAGGED_ALLOC_INITIAL_TABLE_SIZE)))) as Hv.
  unfold TAGGED_ALLOC_INITIAL_TABLE_SIZE, size_t_modulus in *.
  repeat split; lia.
Qed.

Lemma live_records_store_fill (j : nat) (ta : TaggedAllocationDescriptor)
    (t : table) :
  first_empty t = Some j -> TAGGED_ALLOC_IS_VALID ta = true ->
  Permutation (live_records (store j ta t)) (ta :: live_records t).
Proof.
  intros H Hta; revert j H; unfold live_records.
  induction t as [|d t IH]; intros j H; cbn [first_empty] in H;
    [discriminate|].
  destruct (TAGGED_ALLOC_IS_VALID d) eqn:Hd; cbn [negb] in H.
  - destruct (first_empty t) as [i|]; [|discriminate].
    injection H as <-; cbn [store filter]; rewrite Hd.
    rewrite (IH i eq_refl); apply perm_swap.
  - injection H as <-; cbn [store filter]; now rewrite Hd, Hta.
Qed.

Lemma live_records_store_clear (p : Z) (j : nat) (t : table) :
  first_holding p t = Some j ->
  Permutation (map Object (live_records t))
    (p :: map Object (live_records (store j zero_descriptor t))).
Proof.
  revert j; unfold live_records.
  induction t as [|d t IH]; intros j H; cbn [first_holding] in H;
    [discriminate|].
  destruct (holds p d) eqn:Hh.
  - injection H as <-; cbn [store filter].
    rewrite (holds_valid p d Hh).
    replace (TAGGED_ALLOC_IS_VALID zero_descriptor) with false by reflexivity.
    unfold holds in Hh; apply andb_true_iff in Hh; destruct Hh as [_ Hp].
    apply Z.eqb_eq in Hp; cbn [map]; now rewrite Hp.
  - destruct (first_holding p t) as [i|]; [|discriminate].
    injection H as <-; cbn [store filter].
    destruct (TAGGED_ALLOC_IS_VALID d); cbn [map]; [|now apply IH].
    rewrite (IH i eq_refl); apply perm_swap.
Qed.

Lemma first_holding_present (p : Z) (t : table) :
  In p (map Object (live_records t)) -> first_holding p t <> None.
Proof.
  intros Hin Hn; apply in_map_iff in Hin; destruct Hin as (d & Hp & Hd).
  unfold live_records in Hd; apply filter_In in Hd; destruct Hd as [Hd Hv].
  apply In_nth_error in Hd; destruct Hd as [i Hi].
  pose proof (first_holding_None p t i d Hn Hi) as Hh.
  unfold holds in Hh; rewrite Hv, Hp, Z.eqb_refl in Hh; discriminate.
Qed.

Lemma live_records_length (t : table) :
  (length (live_records t) <= length t)%nat.
Proof.
  unfold live_records; induction t as [|d t IH]; cbn [filter length]; [lia|].
  destruct (TAGGED_ALLOC_IS_VALID d); cbn [length]; lia.
Qed.

Lemma step_tracking_invariant (P : platform) (c : call) (st : state)
    (live : list Z) :
  tracking_invariant st live ->
  frees_matched_from live [c] = true ->
  allocations_fit_from (Z.to_nat TAGGED_ALLOC_INITIAL_TABLE_SIZE) live [c]
    = true ->
  exists st', step P c st = Ok st'
              /\ tracking_invariant st' (outstanding_from live [c]).
Proof.
  intros (W & Hs & Hc & Hp) Hm Hf.
  pose proof W as (Hl & Hlt & Hr).
  pose proof (Permutation_length Hp) as Hpl; rewrite length_map in Hpl.
  pose proof (live_records_length (AllocationTable st)) as Hll.
  destruct c as [sizeofT count tag now ptr|object];
    cbn [step frees_matched_from allocations_fit_from outstanding_from] in *.
  - apply andb_true_iff in Hf; destruct Hf as [Hf _].
    apply andb_true_iff in Hf; destruct Hf as [Hcap Hptr].
    apply Nat.ltb_lt in Hcap.
    unfold AllocateInternal; cbn [Object]; rewrite Hptr; cbn [assert bind].
    rewrite (InsertAllocation_step P _ st W)
      by (rewrite Hs; vm_compute; congruence).
    destruct (first_empty (AllocationTable st)) as [j|] eqn:Ej.
    + cbn [bind snd]; eexists; split; [reflexivity|].
      unfold tracking_invariant, state_wf;
        cbn [AllocationTable AllocationTableSize AllocationCount length].
      rewrite length_store, wrap_small
        by (unfold TAGGED_ALLOC_INITIAL_TABLE_SIZE, size_t_modulus in *; lia).
      repeat split; try lia.
      assert (Hta : TAGGED_ALLOC_IS_VALID
                      (mkDescriptor ptr (wrap (sizeofT * count)) tag now)
                    = true) by exact Hptr.
      rewrite (Permutation_map Object
                 (live_records_store_fill j _ _ Ej Hta)).
      cbn [map Object]; now apply perm_skip.
    + apply first_empty_None in Ej; rewrite Ej in Hpl.
      unfold TAGGED_ALLOC_INITIAL_TABLE_SIZE in *; lia.
  - apply andb_true_iff in Hm; destruct Hm as [Hin _].
    pose proof (remove_first_length object live Hin) as Hrl.
    pose proof (remove_first_Permutation object live Hin) as Hrp.
    assert (G : shrink_guard (wrap (AllocationCount st - 1))
                  (AllocationTableSize st) = false).
    { rewrite Hs; apply shrink_guard_initial_size; rewrite <- Hs; lia. }
    rewrite (Free_step P object st W G).
    eexists; split; [reflexivity|].
    unfold tracking_invariant, state_wf;
      cbn [AllocationTable AllocationTableSize AllocationCount].
    rewrite wrap_small by lia.
    destruct (first_holding object (AllocationTable st)) as [j|] eqn:Ej.
    + rewrite length_store; repeat split; try lia.
      apply (Permutation_cons_inv (a := object)).
      rewrite <- Hrp, <- Hp; symmetry.
      now apply live_records_store_clear.
    + exfalso; apply (first_holding_present object (AllocationTable st));
        [|exact Ej].
      apply (Permutation_in object (Permutation_sym Hp)).
      apply existsb_exists in Hin; destruct Hin as (x & Hx & Hxe).
      apply Z.eqb_eq in Hxe; now subst x.
Qed.

Lemma run_tracking_invariant (P : platform) (cs : list call) :
  forall (st : state) (live : list Z),
    tracking_invariant st live ->
    frees_matched_from live cs = true ->
    allocations_fit_from (Z.to_nat TAGGED_ALLOC_INITIAL_TABLE_SIZE) live cs
      = true ->
    exists st', run P cs st = Ok st'
                /\ tracking_invariant st' (outstanding_from live cs).
Proof.
  induction cs as [|c cs IH]; intros st live HI Hm Hf.
  - exists st; split; [reflexivity|exact HI].
  - assert (H1 : frees_matched_from live [c] = true
                 /\ allocations_fit_from
                      (Z.to_nat TAGGED_ALLOC_INITIAL_TABLE_SIZE) live [c] = true
                 /\ frees_matched_from (outstanding_from live [c]) cs = true
                 /\ allocations_fit_from
                      (Z.to_nat TAGGED_ALLOC_INITIAL_TABLE_SIZE)
                      (outstanding_from live [c]) cs = true).
    { destruct c;
        cbn [frees_matched_from allocations_fit_from outstanding_from] in *.
      - apply andb_true_iff in Hf; destruct Hf as [-> ->]; auto.
      - apply andb_true_iff in Hm; destruct Hm as [-> ->]; auto. }
    destruct H1 as (Hm1 & Hf1 & Hm2 & Hf2).
    destruct (step_tracking_invariant P c st live HI Hm1 Hf1)
      as (st1 & E1 & HI1).
    destruct (IH st1 _ HI1 Hm2 Hf2) as (st' & E & HI').
    exists st'; cbn [run]; rewrite E1; cbn [bind]; split; [exact E|].
    replace (outstanding_from live (c :: cs))
      with (outstanding_from (outstanding_from live [c]) cs)
      by (destruct c; reflexivity).
    exact HI'.
Qed.

Lemma Init_tracking_invariant (mem : nat -> TaggedAllocationDescriptor) :
  (forall i, TAGGED_ALLOC_IS_VALID (mem i) = false) ->
  tracking_invariant (Init mem) [].
Proof.
  intros Hmem; destruct (Init_run_invariant mem) as (W & Hs & Hc & _).
  repeat split; try apply W; auto.
  unfold Init; cbn [AllocationTable].
  replace (live_records
             (map mem (seq 0 (Z.to_nat TAGGED_ALLOC_INITIAL_TABLE_SIZE))))
    with (@nil TaggedAllocationDescriptor); [constructor|].
  unfold live_records.
  induction (seq 0 (Z.to_nat TAGGED_ALLOC_INITIAL_TABLE_SIZE)) as [|i l IH];
    [reflexivity|].
  cbn [map filter]; now rewrite Hmem.
Qed.

(** The count along runs that need no growth: in a run of Allocate and
    Free calls on the table that [Init()] leaves, every Free being on an
    address returned by an earlier Allocate and not freed since, the
    count that the run ends with is the number of Allocate calls not yet
    matched by a Free. Whatever memory [Init()] got, this holds of every
    run that comes back; on cleared memory every such run comes back as
    long as [malloc] returns addresses and no Allocate is made with 64
    addresses outstanding. *)
Theorem GetAllocationCount_counts_outstanding
    (P : platform) (mem : nat -> TaggedAllocationDescriptor)
    (cs : list call) :
  frees_matched cs = true ->
  (forall st, run P cs (Init mem) = Ok st ->
     GetAllocationCount st = Z.of_nat (length (outstanding cs)))
  /\ ((forall i, TAGGED_ALLOC_IS_VALID (mem i) = false) ->
      allocations_fit (Z.to_nat TAGGED_ALLOC_INITIAL_TABLE_SIZE) cs = true ->
      exists st, run P cs (Init mem) = Ok st
                 /\ GetAllocationCount st = Z.of_nat (length (outstanding cs))).
Proof.
  intros Hm; split.
  - intros st E.
    now destruct (run_run_invariant P cs (Init mem) st []
                    (Init_run_invariant mem) Hm E) as (_ & _ & Hc & _).
  - intros Hmem Hf.
    destruct (run_tracking_invariant P cs (Init mem) []
                (Init_tracking_invariant mem Hmem) Hm Hf)
      as (st & E & _ & _ & Hc & _).
    exists st; split; [exact E|exact Hc].
Qed.

Lemma GetAllocationCount_counts_outstanding_witness :
  frees_matched sample_calls = true
  /\ exists st, run esp32 sample_calls fresh_state = Ok st
                /\ GetAllocationCount st = 1.
Proof.
  assert (Hm : frees_matched sample_calls = true) by reflexivity.
  split; [exact Hm|].
  destruct (GetAllocationCount_counts_outstanding esp32
              (fun _ => zero_descriptor) sample_calls Hm) as [_ H].
  destruct (H (fun _ => eq_refl) eq_refl) as (st & E & Hc).
  exists st; split; [exact E|exact Hc].
Defined.

(** * Further properties of the table operations *)

(** ** Finding and filling a slot *)

Lemma first_empty_lowest (t : table) (j : nat) :
  first_empty t = Some j ->
  forall i d, (i < j)%nat -> nth_error t i = Some d ->
              TAGGED_ALLOC_IS_VALID d = true.
Proof.
  revert j; induction t as [|x t IH]; intros j H; cbn [first_empty] in H;
    [discriminate|].
  destruct (TAGGED_ALLOC_IS_VALID x) eqn:E; cbn [negb] in H.
  - destruct (first_empty t) as [k|]; [|discriminate].
    injection H as <-; intros [|i] d Hi Hd; cbn [nth_error] in Hd.
    + congruence.
    + apply (IH k eq_refl i d); [lia|exact Hd].
  - injection H as <-; intros; lia.
Qed.

Lemma first_empty_all_valid (t : table) :
  first_empty t = None ->
  forall i d, nth_error t i = Some d -> TAGGED_ALLOC_IS_VALID d = true.
Proof.
  induction t as [|x t IH]; cbn [first_empty]; intros H i d Hd.
  - destruct i; discriminate.
  - destruct (TAGGED_ALLOC_IS_VALID x) eqn:E; cbn [negb] in H; [|discriminate].
    destruct (first_empty t); [discriminate|].
    destruct i; cbn [nth_error] in Hd; [congruence|eauto].
Qed.

(** The scan for an empty slot is first-fit: on a table that fills its
    buffer it reports the lowest empty index, which lies inside the table,
    and it reports failure, leaving the index as it was, only when every
    slot holds a valid record. *)
Theorem GetFirstEmptySlot_first_fit (index0 : Z) (st : state) :
  state_wf st ->
  exists (found : bool) (index : Z),
    GetFirstEmptySlot index0 st = Ok (found, index)
    /\ (found = true ->
        0 <= index < AllocationTableSize st
        /\ (exists d, nth_error (AllocationTable st) (Z.to_nat index) = Some d
                      /\ TAGGED_ALLOC_IS_VALID d = false)
        /\ forall i d, (i < Z.to_nat index)%nat ->
             nth_error (AllocationTable st) i = Some d ->
             TAGGED_ALLOC_IS_VALID d = true)
    /\ (found = false ->
        index = index0
        /\ forall i d, nth_error (AllocationTable st) i = Some d ->
             TAGGED_ALLOC_IS_VALID d = true).
Proof.
  intros W; rewrite (GetFirstEmptySlot_spec index0 st W).
  destruct (first_empty (AllocationTable st)) as [j|] eqn:E.
  - exists true, (Z.of_nat j); split; [reflexivity|].
    split; [intros _|discriminate].
    destruct (first_empty_Some _ j E) as (d & Hd & Hv).
    rewrite Nat2Z.id; split; [|split].
    + assert (j < length (AllocationTable st))%nat
        by (apply nth_error_Some; congruence).
      destruct W as (Hl & _); lia.
    + exists d; auto.
    + apply (first_empty_lowest _ j E).
  - exists false, index0; split; [reflexivity|].
    split; [discriminate|intros _; split; [reflexivity|]].
    apply (first_empty_all_valid _ E).
Qed.

Lemma GetFirstEmptySlot_first_fit_witness :
  state_wf gap_state /\ GetFirstEmptySlot 0 gap_state = Ok (true, 1).
Proof.
  assert (W : state_wf gap_state) by wf_by_computation.
  split; [exact W|].
  destruct (GetFirstEmptySlot_first_fit 0 gap_state W)
    as (found & index & E & _).
  rewrite E; vm_compute in E; injection E as <- <-; reflexivity.
Defined.

Lemma InsertAllocation_found
    (P : platform) (ta : TaggedAllocationDescriptor) (st : state) (j : nat) :
  state_wf st ->
  first_empty (AllocationTable st) = Some j ->
  InsertAllocation P ta st =
  Ok (mkState (wrap (AllocationCount st + 1)) (AllocationTableSize st)
        (store j ta (AllocationTable st))).
Proof.
  intros W E; unfold InsertAllocation.
  rewrite (GetFirstEmptySlot_spec 0 st W), E; cbn [bind fst snd negb].
  rewrite (GetFirstEmptySlot_spec (Z.of_nat j) st W), E.
  cbn [bind fst snd assert]; rewrite Nat2Z.id.
  rewrite store_checked_Ok; [reflexivity|].
  destruct (first_empty_Some _ j E) as (d & Hd & _).
  apply nth_error_Some; congruence.
Qed.

Lemma GetFirstEmptySlot_found_first_empty (index0 index : Z) (st : state) :
  state_wf st ->
  GetFirstEmptySlot index0 st = Ok (true, index) ->
  first_empty (AllocationTable st) = Some (Z.to_nat index)
  /\ 0 <= index.
Proof.
  intros W H; rewrite (GetFirstEmptySlot_spec index0 st W) in H.
  destruct (first_empty (AllocationTable st)) as [j|]; [|discriminate].
  injection H as <-; rewrite Nat2Z.id; split; [reflexivity|lia].
Qed.

(** When the scan finds an empty slot, the insertion returns without any
    resize: the record is written into that slot, every other slot and
    the table size are unchanged, and the count goes up by one in
    [size_t]. *)
Theorem InsertAllocation_fills_first_empty_slot
    (P : platform) (ta : TaggedAllocationDescriptor) (st : state) (index : Z) :
  state_wf st ->
  GetFirstEmptySlot 0 st = Ok (true, index) ->
  exists st',
    InsertAllocation P ta st = Ok st'
    /\ AllocationCount st' = wrap (AllocationCount st + 1)
    /\ AllocationTableSize st' = AllocationTableSize st
    /\ length (AllocationTable st') = length (AllocationTable st)
    /\ nth_error (AllocationTable st') (Z.to_nat index) = Some ta
    /\ forall i, i <> Z.to_nat index ->
         nth_error (AllocationTable st') i = nth_error (AllocationTable st) i.
Proof.
  intros W H.
  destruct (GetFirstEmptySlot_found_first_empty 0 index st W H) as [E _].
  rewrite (InsertAllocation_found P ta st _ W E).
  eexists; split; [reflexivity|]; cbn [AllocationCount AllocationTableSize
    AllocationTable].
  split; [reflexivity|split; [reflexivity|split; [apply length_store|]]].
  split.
  - apply nth_error_store_eq.
    destruct (first_empty_Some _ _ E) as (d & Hd & _).
    apply nth_error_Some; congruence.
  - intros i Hi; apply nth_error_store_neq; congruence.
Qed.

Lemma InsertAllocation_fills_first_empty_slot_witness :
  state_wf gap_state
  /\ GetFirstEmptySlot 0 gap_state = Ok (true, 1)
  /\ exists st', InsertAllocation esp32 (rec 8192 4 7) gap_state = Ok st'
                 /\ nth_error (AllocationTable st') 1 = Some (rec 8192 4 7).
Proof.
  assert (W : state_wf gap_state) by wf_by_computation.
  assert (H : GetFirstEmptySlot 0 gap_state = Ok (true, 1)) by reflexivity.
  split; [exact W|split; [exact H|]].
  destruct (InsertAllocation_fills_first_empty_slot esp32 (rec 8192 4 7)
              gap_state 1 W H) as (st' & E & _ & _ & _ & Hn & _).
  exists st'; split; [exact E|exact Hn].
Defined.

(** ** Insertion followed by removal *)

Lemma store_store (j : nat) (a b : TaggedAllocationDescriptor) (t : table) :
  store j a (store j b t) = store j a t.
Proof.
  revert j; induction t as [|x t IH]; intros [|j]; cbn [store]; auto.
  now rewrite IH.
Qed.

Lemma first_holding_store (p : Z) (j : nat) (ta : TaggedAllocationDescriptor)
    (t : table) :
  first_holding p t = None -> holds p ta = true -> (j < length t)%nat ->
  first_holding p (store j ta t) = Some j.
Proof.
  revert j; induction t as [|x t IH]; intros j Hn Hta Hj;
    cbn [length] in Hj; [lia|].
  cbn [first_holding] in Hn.
  destruct (holds p x) eqn:Hx; [discriminate|].
  destruct (first_holding p t) eqn:Ht; [discriminate|].
  destruct j as [|j]; cbn [store first_holding].
  - now rewrite Hta.
  - rewrite Hx, (IH j eq_refl Hta) by lia; reflexivity.
Qed.

Lemma live_records_store_empty (j : nat) (x d : TaggedAllocationDescriptor)
    (t : table) :
  nth_error t j = Some x ->
  TAGGED_ALLOC_IS_VALID x = false -> TAGGED_ALLOC_IS_VALID d = false ->
  live_records (store j d t) = live_records t.
Proof.
  unfold live_records; revert j.
  induction t as [|y t IH]; intros [|j] Hx Hvx Hvd; cbn [nth_error] in Hx;
    try discriminate; cbn [store filter].
  - injection Hx as ->; now rewrite Hvx, Hvd.
  - now rewrite (IH j Hx Hvx Hvd).
Qed.

Lemma wrap_succ_pred (c : Z) :
  0 <= c < size_t_modulus -> wrap (wrap (c + 1) - 1) = c.
Proof.
  intros H; unfold wrap.
  rewrite Zminus_mod_idemp_l.
  replace (c + 1 - 1) with c by lia; now apply Z.mod_small.
Qed.

(** Inserting a record for an address that no valid slot holds and then
    freeing that address undoes the insertion: the count, the table size
    and the valid records in slot order are what they were, the slot that
    was used being left as the empty sentinel. *)
Theorem Free_after_InsertAllocation
    (P : platform) (ta : TaggedAllocationDescriptor) (st : state) (index : Z) :
  state_wf st ->
  GetFirstEmptySlot 0 st = Ok (true, index) ->
  TAGGED_ALLOC_IS_VALID ta = true ->
  (forall i d, nth_error (AllocationTable st) i = Some d ->
               holds (Object ta) d = false) ->
  shrink_guard (AllocationCount st) (AllocationTableSize st) = false ->
  exists st1 st2,
    InsertAllocation P ta st = Ok st1
    /\ Free P (Object ta) st1 = Ok st2
    /\ AllocationCount st2 = AllocationCount st
    /\ AllocationTableSize st2 = AllocationTableSize st
    /\ live_records (AllocationTable st2) = live_records (AllocationTable st)
    /\ AllocationTable st2 =
         store (Z.to_nat index) zero_descriptor (AllocationTable st).
Proof.
  intros W H Hv Habs G.
  destruct (GetFirstEmptySlot_found_first_empty 0 index st W H) as [E _].
  destruct (first_empty_Some _ _ E) as (x & Hx & Hxv).
  assert (Hj : (Z.to_nat index < length (AllocationTable st))%nat)
    by (apply nth_error_Some; congruence).
  pose proof W as (Hl & Hs & Hc).
  rewrite (InsertAllocation_found P ta st _ W E).
  eexists; eexists; split; [reflexivity|].
  assert (W1 : state_wf
                 (mkState (wrap (AllocationCount st + 1))
                    (AllocationTableSize st)
                    (store (Z.to_nat index) ta (AllocationTable st)))).
  { unfold state_wf; cbn [AllocationCount AllocationTableSize
      AllocationTable]; rewrite length_store.
    split; [exact Hl|split; [exact Hs|apply wrap_range]]. }
  rewrite (Free_step P (Object ta) _ W1);
    cbn [AllocationCount AllocationTableSize AllocationTable];
    rewrite (wrap_succ_pred _ Hc); [|exact G].
  assert (Hh : holds (Object ta) ta = true)
    by (unfold holds; now rewrite Hv, Z.eqb_refl).
  rewrite (first_holding_store (Object ta) _ ta _
             (first_holding_absent _ _ Habs) Hh Hj).
  rewrite store_store.
  split; [reflexivity|].
  cbn [AllocationCount AllocationTableSize AllocationTable].
  repeat split.
  now apply (live_records_store_empty _ x).
Qed.

Lemma Free_after_InsertAllocation_witness :
  exists st1 st2,
    InsertAllocation esp32 (rec 8192 4 7) gap_state = Ok st1
    /\ Free esp32 8192 st1 = Ok st2
    /\ AllocationCount st2 = 5
    /\ live_records (AllocationTable st2) = live_records gap_table.
Proof.
  assert (W : state_wf gap_state) by wf_by_computation.
  assert (H : GetFirstEmptySlot 0 gap_state = Ok (true, 1)) by reflexivity.
  assert (Habs : forall i d, nth_error (AllocationTable gap_state) i = Some d ->
                             holds (Object (rec 8192 4 7)) d = false).
  { intros i d Hd.
    apply (first_holding_None 8192 (AllocationTable gap_state) i d);
      [reflexivity|exact Hd]. }
  destruct (Free_after_InsertAllocation esp32 (rec 8192 4 7) gap_state 1
              W H eq_refl Habs eq_refl)
    as (st1 & st2 & E1 & E2 & Hc & _ & Hlr & _).
  exists st1, st2; auto.
Defined.

(** The removal scan for [nullptr] never clears a slot, since a valid
    slot never holds the null address, yet the count is decremented; when
    the decremented count does not pass the shrink test, [Free(nullptr)]
    returns that state, every slot and the table size as they were. *)
Theorem Free_nullptr_keeps_table (P : platform) (st : state) :
  state_wf st ->
  RemoveAllocation_scan 0 st =
    Ok (mkState (wrap (AllocationCount st - 1)) (AllocationTableSize st)
          (AllocationTable st))
  /\ (shrink_guard (wrap (AllocationCount st - 1)) (AllocationTableSize st)
        = false ->
      Free P 0 st =
        Ok (mkState (wrap (AllocationCount st - 1)) (AllocationTableSize st)
              (AllocationTable st))).
Proof.
  intros W.
  assert (Habs : first_holding 0 (AllocationTable st) = None).
  { apply first_holding_absent.
    intros i d _; unfold holds, TAGGED_ALLOC_IS_VALID.
    destruct (Object d =? 0); reflexivity. }
  split.
  - now rewrite (RemoveAllocation_scan_spec 0 st W), Habs.
  - intros G; now rewrite (Free_step P 0 st W G), Habs.
Qed.

Lemma Free_nullptr_keeps_table_witness :
  state_wf gap_state
  /\ RemoveAllocation_scan 0 gap_state = Ok (mkState 4 6 gap_table)
  /\ Free esp32 0 gap_state = Ok (mkState 4 6 gap_table).
Proof.
  assert (W : state_wf gap_state) by wf_by_computation.
  destruct (Free_nullptr_keeps_table esp32 gap_state W) as [Hs Hf].
  split; [exact W|split; [exact Hs|exact (Hf eq_refl)]].
Defined.

(** ** Total size across insertion and removal *)

Lemma sum_live_sizes_store (n : nat) (x d : TaggedAllocationDescriptor)
    (t : table) :
  nth_error t n = Some x ->
  sum_live_sizes (store n d t) =
  sum_live_sizes t - (if TAGGED_ALLOC_IS_VALID x then Size x else 0)
  + (if TAGGED_ALLOC_IS_VALID d then Size d else 0).
Proof.
  revert n; induction t as [|y t IH]; intros [|n] H; cbn [nth_error] in H;
    try discriminate; cbn [store sum_live_sizes].
  - injection H as ->; lia.
  - rewrite (IH n H); lia.
Qed.

Lemma first_holding_intro (p : Z) (t : table) (j : nat)
    (d : TaggedAllocationDescriptor) :
  nth_error t j = Some d -> holds p d = true ->
  (forall i d', (i < j)%nat -> nth_error t i = Some d' -> holds p d' = false) ->
  first_holding p t = Some j.
Proof.
  revert j; induction t as [|x t IH]; intros [|j] Hd Hh Hlow;
    cbn [nth_error] in Hd; try discriminate; cbn [first_holding].
  - injection Hd as ->; now rewrite Hh.
  - rewrite (Hlow O x ltac:(lia) eq_refl).
    rewrite (IH j Hd Hh); [reflexivity|].
    intros i d' Hi Hd'; apply (Hlow (S i) d'); [lia|exact Hd'].
Qed.

(** After an insertion into a free slot the total size is the former
    total plus the size of the inserted record, in [size_t]. *)
Theorem GetTotalSize_after_InsertAllocation
    (P : platform) (ta : TaggedAllocationDescriptor) (st : state) (index : Z) :
  state_wf st ->
  GetFirstEmptySlot 0 st = Ok (true, index) ->
  TAGGED_ALLOC_IS_VALID ta = true ->
  exists st' total,
    InsertAllocation P ta st = Ok st'
    /\ GetTotalSize st = Ok total
    /\ GetTotalSize st' = Ok (wrap (total + Size ta)).
Proof.
  intros W H Hv.
  destruct (GetFirstEmptySlot_found_first_empty 0 index st W H) as [E _].
  destruct (first_empty_Some _ _ E) as (x & Hx & Hxv).
  pose proof W as (Hl & Hs & Hc).
  rewrite (InsertAllocation_found P ta st _ W E).
  eexists; eexists; split; [reflexivity|].
  split; [apply (GetTotalSize_spec st W)|].
  rewrite GetTotalSize_spec.
  - cbn [AllocationTable]; rewrite (sum_live_sizes_store _ x ta _ Hx).
    rewrite Hxv, Hv; f_equal; unfold wrap.
    rewrite Zplus_mod_idemp_l; f_equal; lia.
  - unfold state_wf; cbn [AllocationCount AllocationTableSize
      AllocationTable]; rewrite length_store.
    split; [exact Hl|split; [exact Hs|apply wrap_range]].
Qed.

Lemma GetTotalSize_after_InsertAllocation_witness :
  exists st', InsertAllocation esp32 (rec 8192 12 7) gap_state = Ok st'
              /\ GetTotalSize st' = Ok 32.
Proof.
  assert (W : state_wf gap_state) by wf_by_computation.
  destruct (GetTotalSize_after_InsertAllocation esp32 (rec 8192 12 7)
              gap_state 1 W eq_refl eq_refl) as (st' & total & E & Et & Et').
  exists st'; split; [exact E|].
  vm_compute in Et; injection Et as <-; exact Et'.
Defined.

(** After a Free whose decremented count does not pass the shrink test,
    the total size is the former total less the size of the record in
    the lowest slot holding the address, in [size_t], and the former
    total itself when no valid slot holds it. *)
Theorem GetTotalSize_after_Free (P : platform) (p : Z) (st : state) :
  state_wf st ->
  shrink_guard (wrap (AllocationCount st - 1)) (AllocationTableSize st)
    = false ->
  exists st' total,
    Free P p st = Ok st'
    /\ GetTotalSize st = Ok total
    /\ (forall j d,
          nth_error (AllocationTable st) j = Some d -> holds p d = true ->
          (forall i d', (i < j)%nat ->
             nth_error (AllocationTable st) i = Some d' ->
             holds p d' = false) ->
          GetTotalSize st' = Ok (wrap (total - Size d)))
    /\ ((forall i d, nth_error (AllocationTable st) i = Some d ->
                     holds p d = false) ->
        GetTotalSize st' = Ok total).
Proof.
  intros W G; pose proof W as (Hl & Hs & Hc).
  rewrite (Free_step P p st W G).
  eexists; eexists; split; [reflexivity|].
  split; [apply (GetTotalSize_spec st W)|].
  split.
  - intros j d Hd Hh Hlow.
    rewrite (first_holding_intro p _ j d Hd Hh Hlow).
    rewrite GetTotalSize_spec.
    + cbn [AllocationTable].
      rewrite (sum_live_sizes_store _ d zero_descriptor _ Hd).
      rewrite (holds_valid p d Hh).
      replace (TAGGED_ALLOC_IS_VALID zero_descriptor) with false
        by reflexivity.
      f_equal; unfold wrap.
      rewrite Zminus_mod_idemp_l; f_equal; lia.
    + unfold state_wf; cbn [AllocationCount AllocationTableSize
        AllocationTable]; rewrite length_store.
      split; [exact Hl|split; [exact Hs|apply wrap_range]].
  - intros Habs; rewrite (first_holding_absent p _ Habs).
    rewrite GetTotalSize_spec; [reflexivity|].
    unfold state_wf; cbn [AllocationCount AllocationTableSize
      AllocationTable].
    split; [exact Hl|split; [exact Hs|apply wrap_range]].
Qed.

Lemma GetTotalSize_after_Free_witness :
  exists st', Free esp32 4104 gap_state = Ok st'
              /\ GetTotalSize st' = Ok 16.
Proof.
  assert (W : state_wf gap_state) by wf_by_computation.
  destruct (GetTotalSize_after_Free esp32 4104 gap_state W eq_refl)
    as (st' & total & E & Et & Hheld & _).
  exists st'; split; [exact E|].
  vm_compute in Et; injection Et as <-.
  apply (Hheld 3%nat (rec 4104 4 0) eq_refl eq_refl).
  intros i d' Hi Hd'.
  destruct i as [|[|[|i]]]; try lia;
    cbn in Hd'; injection Hd' as <-; reflexivity.
Defined.

(** ** The fragmentation scan and the defragmentation pass *)

Lemma IsAllocationTableFragmented_loop_examined (t : table) (k : nat) :
  forall (index : Z) (entry : nat) (fe fv fe' fv' : Z),
    IsAllocationTableFragmented_loop k index entry t false fe fv
      = Ok (true, fe', fv') ->
    (exists d, nth_error t (entry + Z.to_nat (fe' - index)) = Some d
               /\ TAGGED_ALLOC_IS_VALID d = false)
    /\ forall j d, (entry <= j < entry + Z.to_nat (fe' - index))%nat ->
         nth_error t j = Some d -> TAGGED_ALLOC_IS_VALID d = true.
Proof.
  induction k as [|k IH]; intros index entry fe fv fe' fv' H;
    cbn [IsAllocationTableFragmented_loop] in H; [discriminate|].
  destruct (nth_error t entry) as [d|] eqn:Hd; [|discriminate].
  cbv zeta in H.
  destruct (TAGGED_ALLOC_IS_VALID d) eqn:Hv; cbn [andb negb] in H.
  - pose proof (IsAllocationTableFragmented_loop_found t k _ _ _ _ _ _ _ H)
      as (_ & _ & Hlo & _).
    apply IH in H; destruct H as ((d' & Hd' & Hv') & Hbelow).
    replace (entry + Z.to_nat (fe' - index))%nat
      with (S entry + Z.to_nat (fe' - (index + 1)))%nat by lia.
    split; [exists d'; auto|].
    intros j d0 Hj Hd0.
    destruct (Nat.eq_dec j entry) as [->|Hne]; [congruence|].
    apply (Hbelow j d0); [lia|exact Hd0].
  - pose proof (IsAllocationTableFragmented_loop_found t k _ _ _ _ _ _ _ H)
      as (_ & _ & ->).
    rewrite Z.sub_diag, Nat.add_0_r; split; [exists d; auto|].
    intros j d0 Hj; lia.
Qed.

(** What a positive answer of [IsAllocationTableFragmented] reports: the
    slot looked at for a reported index is that index less [start]. Slot
    [firstEmptyIndex - start] is empty with only valid slots below it, and
    slot [firstValidIndex - start] is valid; the indices themselves lie
    between [start] and the table size. For [start = 0] they are the
    lowest empty slot and a valid slot after it. *)
Theorem IsAllocationTableFragmented_reports_shifted
    (start fe fv fe' fv' : Z) (st : state) :
  IsAllocationTableFragmented start fe fv st = Ok (true, fe', fv') ->
  start <= fe' < fv' /\ fv' < AllocationTableSize st
  /\ (exists d, nth_error (AllocationTable st) (Z.to_nat (fe' - start))
                  = Some d
                /\ TAGGED_ALLOC_IS_VALID d = false)
  /\ (forall j d, (j < Z.to_nat (fe' - start))%nat ->
        nth_error (AllocationTable st) j = Some d ->
        TAGGED_ALLOC_IS_VALID d = true)
  /\ (exists d, nth_error (AllocationTable st) (Z.to_nat (fv' - start))
                  = Some d
                /\ TAGGED_ALLOC_IS_VALID d = true).
Proof.
  unfold IsAllocationTableFragmented; intros H.
  destruct (start <? AllocationTableSize st) eqn:Hlt;
    cbn [assert bind] in H; [|discriminate].
  apply Z.ltb_lt in Hlt.
  pose proof (IsAllocationTableFragmented_loop_found _ _ _ _ _ _ _ _ _ H)
    as (Hfv & Hvalid & Hfe & _).
  pose proof (IsAllocationTableFragmented_loop_examined _ _ _ _ _ _ _ _ H)
    as (Hempty & Hbelow).
  rewrite Nat.add_0_l in Hvalid, Hempty.
  split; [lia|split; [lia|split; [exact Hempty|split; [|exact Hvalid]]]].
  intros j d Hj; apply Hbelow; lia.
Qed.

Lemma IsAllocationTableFragmented_reports_shifted_witness :
  IsAllocationTableFragmented 1 1 2 moved_gap_state = Ok (true, 3, 4)
  /\ exists d, nth_error (AllocationTable moved_gap_state) (Z.to_nat (3 - 1))
                 = Some d
               /\ TAGGED_ALLOC_IS_VALID d = false.
Proof.
  assert (H : IsAllocationTableFragmented 1 1 2 moved_gap_state
              = Ok (true, 3, 4)) by reflexivity.
  split; [exact H|].
  exact (proj1 (proj2 (proj2
           (IsAllocationTableFragmented_reports_shifted _ _ _ _ _ _ H)))).
Defined.

(** The defragmentation loop always ends within the table size plus two
    calls of the scan; on a table that fills its buffer and has at least
    one entry it returns, with the table size, the count and the buffer
    length unchanged. *)
Theorem DefragAllocationTable_ends (st : state) :
  DefragAllocationTable st <> Diverges
  /\ (state_wf st -> 0 < AllocationTableSize st ->
      exists st',
        DefragAllocationTable st = Ok st'
        /\ AllocationTableSize st' = AllocationTableSize st
        /\ AllocationCount st' = AllocationCount st
        /\ length (AllocationTable st') = length (AllocationTable st)).
Proof.
  exact (DefragAllocationTable_returns st).
Qed.

Lemma DefragAllocationTable_ends_witness :
  exists st', DefragAllocationTable gap_state = Ok st'
              /\ AllocationTableSize st' = 6.
Proof.
  assert (W : state_wf gap_state) by wf_by_computation.
  destruct (DefragAllocationTable_ends gap_state) as [_ H].
  destruct (H W eq_refl) as (st' & E & Hs & _).
  exists st'; auto.
Defined.

Lemma IsAllocationTableFragmented_loop_after_gap (suf : table) :
  forallb (fun d => negb (TAGGED_ALLOC_IS_VALID d)) suf = true ->
  forall (pre : table) (index fe fv : Z),
    IsAllocationTableFragmented_loop (length suf) index (length pre)
      (pre ++ suf) true fe fv = Ok (false, fe, fv).
Proof.
  induction suf as [|d suf IH]; intros H pre index fe fv; [reflexivity|].
  cbn [forallb] in H; apply andb_true_iff in H; destruct H as [Hd Hs].
  cbn [length IsAllocationTableFragmented_loop].
  rewrite nth_error_middle; cbv zeta.
  apply negb_true_iff in Hd; rewrite Hd; cbn [andb negb].
  rewrite snoc_app, <- (length_snoc pre d); now apply IH.
Qed.

Lemma IsAllocationTableFragmented_loop_compact (vs es : table) :
  forallb TAGGED_ALLOC_IS_VALID vs = true ->
  forallb (fun d => negb (TAGGED_ALLOC_IS_VALID d)) es = true ->
  forall (pre : table) (index fe fv : Z),
    exists fe',
      IsAllocationTableFragmented_loop (length (vs ++ es)) index (length pre)
        (pre ++ vs ++ es) false fe fv = Ok (false, fe', fv).
Proof.
  intros Hvs Hes; induction vs as [|d vs IH]; intros pre index fe fv.
  - cbn [app]; destruct es as [|e es]; [exists fe; reflexivity|].
    cbn [forallb] in Hes; apply andb_true_iff in Hes; destruct Hes as [He Hr].
    cbn [length IsAllocationTableFragmented_loop].
    rewrite nth_error_middle; cbv zeta.
    apply negb_true_iff in He; rewrite He; cbn [andb negb].
    exists index; rewrite snoc_app, <- (length_snoc pre e).
    now apply IsAllocationTableFragmented_loop_after_gap.
  - cbn [forallb] in Hvs; apply andb_true_iff in Hvs; destruct Hvs as [Hd Hr].
    cbn [app length IsAllocationTableFragmented_loop].
    rewrite nth_error_middle; cbv zeta; rewrite Hd; cbn [andb negb].
    rewrite snoc_app, <- (length_snoc pre d); now apply IH.
Qed.

(** On a table whose valid records already come first the pass changes
    nothing: the first scan reports no fragmentation. *)
Theorem DefragAllocationTable_compact_unchanged (st : state) :
  state_wf st -> 0 < AllocationTableSize st ->
  is_compact (AllocationTable st) = true ->
  DefragAllocationTable st = Ok st.
Proof.
  intros W Hpos Hc; pose proof (table_length_of_wf st W) as Hl.
  unfold is_compact in Hc; apply andb_true_iff in Hc; destruct Hc as [Hv He].
  unfold DefragAllocationTable.
  replace (Z.to_nat (AllocationTableSize st) + 2)%nat
    with (S (S (Z.to_nat (AllocationTableSize st)))) by lia.
  cbn [DefragAllocationTable_loop]; unfold IsAllocationTableFragmented.
  apply Z.ltb_lt in Hpos; rewrite Hpos; cbn [assert bind].
  rewrite Z.sub_0_r, Hl.
  destruct (IsAllocationTableFragmented_loop_compact _ _ Hv He [] 0 0 0)
    as [fe' E].
  cbn [length app] in E; rewrite firstn_skipn in E.
  now rewrite E.
Qed.

Lemma DefragAllocationTable_compact_unchanged_witness :
  DefragAllocationTable state_96_32 = Ok state_96_32.
Proof.
  apply DefragAllocationTable_compact_unchanged;
    [wf_by_computation|reflexivity|reflexivity].
Defined.

Lemma In_store (n : nat) (x d : TaggedAllocationDescriptor) (t : table) :
  In d (store n x t) -> d = x \/ In d t.
Proof.
  revert n; induction t as [|y t IH]; intros [|n]; cbn [store In]; auto.
  - intros [->|H]; auto.
  - intros [->|H]; auto.
    destruct (IH n H); auto.
Qed.

Lemma DefragAllocationTable_loop_keeps (fuel : nat) :
  forall (fe fv : Z) (st st' : state),
    DefragAllocationTable_loop fuel fe fv st = Ok st' ->
    AllocationTableSize st' = AllocationTableSize st
    /\ AllocationCount st' = AllocationCount st
    /\ valid_count (AllocationTable st') <= valid_count (AllocationTable st)
    /\ forall d, In d (AllocationTable st') ->
                 TAGGED_ALLOC_IS_VALID d = true -> In d (AllocationTable st).
Proof.
  induction fuel as [|fuel IH]; intros fe fv st st' H;
    cbn [DefragAllocationTable_loop] in H; [discriminate|].
  destruct (IsAllocationTableFragmented fe fe fv st)
    as [[[b fe'] fv']| | |]; cbn [bind] in H; try discriminate.
  destruct b; [|injection H as <-; repeat split; auto; lia].
  destruct (nth_error (AllocationTable st) (Z.to_nat fv')) as [dv|] eqn:Hdv;
    [|discriminate].
  unfold store_checked in H.
  destruct (Z.to_nat fe' <? length (AllocationTable st))%nat eqn:Hfe;
    cbn [bind] in H; [|discriminate].
  rewrite length_store in H.
  destruct (Z.to_nat fv' <? length (AllocationTable st))%nat eqn:Hfv;
    cbn [bind] in H; [|discriminate].
  apply IH in H; cbn [AllocationTableSize AllocationCount AllocationTable] in H.
  destruct H as (Hs & Hc & Hv & Hin).
  apply Nat.ltb_lt in Hfe, Hfv.
  split; [exact Hs|split; [exact Hc|split]].
  - destruct (nth_error (AllocationTable st) (Z.to_nat fe')) as [x|] eqn:Hx;
      [|apply nth_error_None in Hx; lia].
    assert (H1 : nth_error (store (Z.to_nat fe') dv (AllocationTable st))
                   (Z.to_nat fv') = Some dv).
    { destruct (Nat.eq_dec (Z.to_nat fe') (Z.to_nat fv')) as [e|n].
      - rewrite <- e; now apply nth_error_store_eq.
      - now rewrite nth_error_store_neq. }
    rewrite (valid_count_store _ dv zero_descriptor _ H1) in Hv.
    rewrite (valid_count_store _ x dv _ Hx) in Hv.
    replace (TAGGED_ALLOC_IS_VALID zero_descriptor) with false in Hv
      by reflexivity.
    destruct (TAGGED_ALLOC_IS_VALID x), (TAGGED_ALLOC_IS_VALID dv); lia.
  - intros d Hd Hvd; specialize (Hin d Hd Hvd).
    apply In_store in Hin; destruct Hin as [->|Hin]; [discriminate|].
    apply In_store in Hin; destruct Hin as [->|Hin]; [|exact Hin].
    now apply nth_error_In in Hdv.
Qed.

(** Whatever the table, a pass that returns has not touched the table
    size or the count, has not raised the number of valid records, and
    has put no record into the table that was not there before. *)
Theorem DefragAllocationTable_keeps (st st' : state) :
  DefragAllocationTable st = Ok st' ->
  AllocationTableSize st' = AllocationTableSize st
  /\ AllocationCount st' = AllocationCount st
  /\ valid_count (AllocationTable st') <= valid_count (AllocationTable st)
  /\ forall d, In d (AllocationTable st') ->
               TAGGED_ALLOC_IS_VALID d = true -> In d (AllocationTable st).
Proof.
  apply DefragAllocationTable_loop_keeps.
Qed.

Lemma DefragAllocationTable_keeps_witness :
  exists st', DefragAllocationTable gap_state = Ok st'
              /\ valid_count (AllocationTable st') <= 5.
Proof.
  destruct (DefragAllocationTable gap_state) as [st'| | |] eqn:E;
    try (vm_compute in E; discriminate).
  exists st'; split; [reflexivity|].
  exact (proj1 (proj2 (proj2 (DefragAllocationTable_keeps gap_state st' E)))).
Defined.

(** ** After a resize that goes through *)

Lemma GetTotalSize_loop_past_end (pre suf : table) (m : nat) (totalSize : Z) :
  GetTotalSize_loop (length suf + S m) (length pre) (pre ++ suf) totalSize
  = OutOfBounds.
Proof.
  revert pre totalSize; induction suf as [|d suf IH]; intros pre acc.
  - cbn [length Nat.add GetTotalSize_loop]; rewrite app_nil_r.
    now rewrite (proj2 (nth_error_None pre (length pre)) (Nat.le_refl _)).
  - cbn [length Nat.add GetTotalSize_loop].
    rewrite nth_error_middle, snoc_app, <- (length_snoc pre d).
    apply IH.
Qed.

(** A resize to a different size of at least one entry that goes through
    leaves a buffer of the requested entries but records sixteen times
    that number as the table size, the count being kept; a total-size
    query made next runs off the end of the buffer. *)
Theorem ResizeAllocationTable_records_byte_size
    (P : platform) (n : Z) (st st' : state) :
  1 <= n -> n <> AllocationTableSize st ->
  ResizeAllocationTable P n st = Ok st' ->
  AllocationTableSize st' = n * sizeof_descriptor
  /\ Z.of_nat (length (AllocationTable st')) = n
  /\ AllocationCount st' = AllocationCount st
  /\ GetTotalSize st' = OutOfBounds.
Proof.
  intros Hn Hne E.
  destruct (ResizeAllocationTable_stores_byte_size P n st st'
              ltac:(lia) Hne E) as [Hs Hl].
  split; [exact Hs|split; [exact Hl|split]].
  - unfold ResizeAllocationTable in E.
    destruct (n <? TAGGED_ALLOC_MIN_TABLE_SIZE); cbn [assert bind] in E;
      [|discriminate].
    apply Z.eqb_neq in Hne; rewrite Hne in E; cbn [negb] in E.
    destruct (n <? AllocationTableSize st).
    + destruct (DefragAllocationTable st) as [st1| | |] eqn:D;
        cbn [bind] in E; try discriminate.
      destruct (DefragAllocationTable_loop_keeps _ _ _ _ _ D)
        as (_ & Hc & _).
      destruct (realloc_succeeds P _); cbn [assert bind] in E;
        [|discriminate].
      injection E as <-; exact Hc.
    + cbn [bind] in E.
      destruct (realloc_succeeds P _); cbn [assert bind] in E;
        [|discriminate].
      injection E as <-; reflexivity.
  - unfold GetTotalSize; rewrite Hs; unfold sizeof_descriptor in *.
    replace (Z.to_nat (n * 16))
      with (length (AllocationTable st') + S (Z.to_nat (n * 15 - 1)))%nat
      by lia.
    apply (GetTotalSize_loop_past_end [] (AllocationTable st')).
Qed.

Lemma ResizeAllocationTable_records_byte_size_witness :
  exists st', ResizeAllocationTable lenient 16 fresh_state = Ok st'
              /\ AllocationTableSize st' = 256
              /\ Z.of_nat (length (AllocationTable st')) = 16
              /\ GetTotalSize st' = OutOfBounds.
Proof.
  destruct (ResizeAllocationTable lenient 16 fresh_state) as [st'| | |] eqn:E;
    try (vm_compute in E; discriminate).
  exists st'; split; [reflexivity|].
  destruct (ResizeAllocationTable_records_byte_size lenient 16 fresh_state st'
              ltac:(lia) ltac:(vm_compute; congruence) E)
    as (Hs & Hl & _ & Ht).
  auto.
Defined.

(** ** The report's outcome *)

(** On a table that fills its buffer the report ends normally only when
    the table has no entry; on every table with at least one entry the
    printing loop, bounded by the byte size, reads past the end of the
    copy. *)
Theorem PrintStats_outcome (st : state) :
  state_wf st ->
  AllocationTableSize st * sizeof_descriptor < size_t_modulus ->
  (0 < AllocationTableSize st -> snd (PrintStats st) = OutOfBounds)
  /\ (AllocationTableSize st = 0 ->
      PrintStats st =
      (PrintStats_banner ++ PrintStats_summary (AllocationCount st), Ok tt)).
Proof.
  intros W Hb; rewrite (PrintStats_spec st W Hb); split.
  - intros Hpos; apply Z.ltb_lt in Hpos; now rewrite Hpos.
  - intros H0; destruct W as (Hl & _); rewrite H0 in *.
    destruct (AllocationTable st); [|cbn [length] in Hl; lia].
    cbn; reflexivity.
Qed.

Lemma PrintStats_outcome_witness :
  snd (PrintStats fresh_state) = OutOfBounds.
Proof.
  apply (PrintStats_outcome fresh_state);
    [wf_by_computation|wf_by_computation|reflexivity].
Defined.

(** ** Allocation *)

(** An allocation that finds a free slot returns the address that
    [malloc] gave and leaves in that slot a record of this address, the
    tag, the time and the byte size [sizeof(T) * count] reduced modulo
    2^32; when [malloc] gives [nullptr] the call ends in a failed
    assertion whatever the table holds. *)
Theorem AllocateInternal_records_allocation
    (P : platform) (sizeofT count : Z) (tag : tag4) (now ptr : Z)
    (st : state) (index : Z) :
  state_wf st ->
  GetFirstEmptySlot 0 st = Ok (true, index) ->
  (ptr <> 0 ->
   exists st',
     AllocateInternal P sizeofT count tag now ptr st = Ok (ptr, st')
     /\ nth_error (AllocationTable st') (Z.to_nat index) =
          Some (mkDescriptor ptr (wrap (sizeofT * count)) tag now)
     /\ AllocationCount st' = wrap (AllocationCount st + 1)
     /\ AllocationTableSize st' = AllocationTableSize st)
  /\ AllocateInternal P sizeofT count tag now 0 st = AssertFail.
Proof.
  intros W H; split; [|reflexivity].
  intros Hp; unfold AllocateInternal; cbn [Object].
  apply Z.eqb_neq in Hp; rewrite Hp; cbn [negb assert bind].
  destruct (GetFirstEmptySlot_found_first_empty 0 index st W H) as [E _].
  rewrite (InsertAllocation_found P _ st _ W E); cbn [bind].
  eexists; split; [reflexivity|].
  cbn [AllocationTable AllocationCount AllocationTableSize].
  split; [|split; reflexivity].
  apply nth_error_store_eq.
  destruct (first_empty_Some _ _ E) as (d & Hd & _).
  apply nth_error_Some; congruence.
Qed.

Lemma AllocateInternal_records_allocation_witness :
  exists st',
    AllocateArray esp32 8 3 tagA 70 8192 gap_state = Ok (8192, st')
    /\ nth_error (AllocationTable st') 1 = Some (mkDescriptor 8192 24 tagA 70).
Proof.
  assert (W : state_wf gap_state) by wf_by_computation.
  destruct (AllocateInternal_records_allocation esp32 8 3 tagA 70 8192
              gap_state 1 W eq_refl) as [H _].
  destruct (H ltac:(lia)) as (st' & E & Hn & _).
  exists st'; split; [exact E|exact Hn].
Defined.

(** ** Runs from the initial table, continued *)

Lemma first_empty_valid_count (t : table) (j : nat) :
  first_empty t = Some j -> valid_count t < Z.of_nat (length t).
Proof.
  revert j; induction t as [|x t IH]; intros j H; cbn [first_empty] in H;
    [discriminate|].
  rewrite valid_count_cons; cbn [length].
  pose proof (valid_count_bounds t).
  destruct (TAGGED_ALLOC_IS_VALID x); cbn [negb] in H; [|lia].
  destruct (first_empty t) as [k|]; [|discriminate].
  specialize (IH k eq_refl); lia.
Qed.

(** On cleared memory, a run in which every Free is on an outstanding
    address and no Allocate is made with 64 addresses outstanding comes
    back with the valid slots holding exactly the outstanding addresses:
    the count equals the number of valid slots, and the table still has
    its 64 entries. *)
Theorem run_tracks_outstanding
    (P : platform) (mem : nat -> TaggedAllocationDescriptor)
    (cs : list call) :
  (forall i, TAGGED_ALLOC_IS_VALID (mem i) = false) ->
  frees_matched cs = true ->
  allocations_fit (Z.to_nat TAGGED_ALLOC_INITIAL_TABLE_SIZE) cs = true ->
  exists st,
    run P cs (Init mem) = Ok st
    /\ Permutation (map Object (live_records (AllocationTable st)))
         (outstanding cs)
    /\ GetAllocationCount st = valid_count (AllocationTable st)
    /\ AllocationTableSize st = TAGGED_ALLOC_INITIAL_TABLE_SIZE.
Proof.
  intros Hmem Hm Hf.
  destruct (run_tracking_invariant P cs (Init mem) []
              (Init_tracking_invariant mem Hmem) Hm Hf)
    as (st & E & _ & Hs & Hc & Hp).
  exists st; split; [exact E|split; [exact Hp|split; [|exact Hs]]].
  unfold GetAllocationCount, valid_count, outstanding.
  rewrite Hc; f_equal.
  now rewrite <- (Permutation_length Hp), length_map.
Qed.

Lemma run_tracks_outstanding_witness :
  exists st,
    run esp32 sample_calls fresh_state = Ok st
    /\ Permutation (map Object (live_records (AllocationTable st))) [4096].
Proof.
  destruct (run_tracks_outstanding esp32 (fun _ => zero_descriptor)
              sample_calls (fun _ => eq_refl) eq_refl eq_refl)
    as (st & E & Hp & _).
  exists st; split; [exact E|exact Hp].
Defined.

(** Whatever memory [Init()] got, a run of matched calls that comes back
    has never resized the table: it still has the 64 entries of its
    buffer, and the count is at most the number of valid slots. *)
Theorem run_keeps_initial_table
    (P : platform) (mem : nat -> TaggedAllocationDescriptor)
    (cs : list call) (st : state) :
  frees_matched cs = true ->
  run P cs (Init mem) = Ok st ->
  AllocationTableSize st = TAGGED_ALLOC_INITIAL_TABLE_SIZE
  /\ Z.of_nat (length (AllocationTable st)) = TAGGED_ALLOC_INITIAL_TABLE_SIZE
  /\ GetAllocationCount st <= valid_count (AllocationTable st).
Proof.
  intros Hm E.
  destruct (run_run_invariant P cs (Init mem) st [] (Init_run_invariant mem)
              Hm E) as ((Hl & _) & Hs & _ & Hv).
  split; [exact Hs|split; [congruence|exact Hv]].
Qed.

Lemma run_keeps_initial_table_witness :
  exists st, run esp32 sample_calls fresh_state = Ok st
             /\ AllocationTableSize st = 64.
Proof.
  destruct (run esp32 sample_calls fresh_state) as [st| | |] eqn:E;
    try (vm_compute in E; discriminate).
  exists st; split; [reflexivity|].
  exact (proj1 (run_keeps_initial_table esp32 (fun _ => zero_descriptor)
                  sample_calls st eq_refl E)).
Defined.

(** The table never holds more than its 64 initial entries: after a run
    of matched calls that comes back with 64 addresses outstanding, every
    further Allocate ends in a failed assertion. *)
Theorem Allocate_with_full_table_aborts
    (P : platform) (mem : nat -> TaggedAllocationDescriptor)
    (cs : list call) (st : state)
    (sizeofT count : Z) (tag : tag4) (now ptr : Z) :
  frees_matched cs = true ->
  run P cs (Init mem) = Ok st ->
  length (outstanding cs) = Z.to_nat TAGGED_ALLOC_INITIAL_TABLE_SIZE ->
  step P (CallAllocate sizeofT count tag now ptr) st = AssertFail.
Proof.
  intros Hm E Hfull.
  destruct (run_run_invariant P cs (Init mem) st [] (Init_run_invariant mem)
              Hm E) as (W & Hs & Hc & Hv).
  fold (outstanding cs) in Hc; rewrite Hfull in Hc.
  cbn [step]; unfold AllocateInternal; cbn [Object].
  destruct (ptr =? 0); cbn [negb assert bind]; [reflexivity|].
  rewrite (InsertAllocation_step P _ st W)
    by (rewrite Hs; vm_compute; congruence).
  destruct (first_empty (AllocationTable st)) as [j|] eqn:Ej; [|reflexivity].
  apply first_empty_valid_count in Ej.
  destruct W as (Hl & _).
  unfold TAGGED_ALLOC_INITIAL_TABLE_SIZE in *; lia.
Qed.

Lemma Allocate_with_full_table_aborts_witness :
  exists st,
    run esp32 fill_calls fresh_state = Ok st
    /\ step esp32 (CallAllocate 4 1 tagA 0 9000) st = AssertFail.
Proof.
  destruct (run esp32 fill_calls fresh_state) as [st| | |] eqn:E;
    try (vm_compute in E; discriminate).
  exists st; split; [reflexivity|].
  apply (Allocate_with_full_table_aborts esp32 (fun _ => zero_descriptor)
           fill_calls st 4 1 tagA 0 9000 eq_refl E eq_refl).
Defined.

(** ** Removal, continued *)

(** A Free whose address is held by a valid slot, and that returns,
    lowers the number of valid slots and the count by one each, so a
    count that matched the valid slots still matches them. *)
Theorem Free_held_address_keeps_step (P : platform) (p : Z) (st : state)
    (j : nat) (d : TaggedAllocationDescriptor) :
  state_wf st ->
  shrink_guard (wrap (AllocationCount st - 1)) (AllocationTableSize st)
    = false ->
  nth_error (AllocationTable st) j = Some d -> holds p d = true ->
  exists st',
    Free P p st = Ok st'
    /\ valid_count (AllocationTable st') = valid_count (AllocationTable st) - 1
    /\ (1 <= AllocationCount st ->
        AllocationCount st = valid_count (AllocationTable st) ->
        AllocationCount st' = valid_count (AllocationTable st')).
Proof.
  intros W G Hd Hh; pose proof W as (_ & _ & Hc).
  rewrite (Free_step P p st W G).
  eexists; split; [reflexivity|].
  cbn [AllocationTable AllocationCount].
  destruct (first_holding p (AllocationTable st)) as [k|] eqn:E.
  - destruct (first_holding_Some p _ k E) as [(x & Hx & Hhx) _].
    rewrite (valid_count_store _ x zero_descriptor _ Hx).
    rewrite (holds_valid p x Hhx).
    replace (TAGGED_ALLOC_IS_VALID zero_descriptor) with false by reflexivity.
    split; [lia|].
    intros H1 Hv; rewrite wrap_small by lia; lia.
  - rewrite (first_holding_None p _ j d E Hd) in Hh; discriminate.
Qed.

Lemma Free_held_address_keeps_step_witness :
  exists st', Free esp32 4104 gap_state = Ok st'
              /\ valid_count (AllocationTable st') = 4
              /\ AllocationCount st' = 4.
Proof.
  assert (W : state_wf gap_state) by wf_by_computation.
  destruct (Free_held_address_keeps_step esp32 4104 gap_state 3
              (rec 4104 4 0) W eq_refl eq_refl eq_refl)
    as (st' & E & Hv & Hc).
  exists st'; split; [exact E|split; [exact Hv|]].
  rewrite (Hc ltac:(vm_compute; congruence) eq_refl); exact Hv.
Defined.

(** A Free never shrinks the table: on a table that fills its buffer,
    with a positive count not above the table size, a Free that passes
    the shrink test asks for a size above the minimum and ends in the
    failed assertion of [ResizeAllocationTable]. *)
Theorem Free_passing_shrink_test_aborts (P : platform) (p : Z) (st : state) :
  state_wf st ->
  1 <= AllocationCount st <= AllocationTableSize st ->
  shrink_guard (wrap (AllocationCount st - 1)) (AllocationTableSize st)
    = true ->
  Free P p st = AssertFail.
Proof.
  intros W Hc G; pose proof W as (_ & Hs & _).
  unfold Free, RemoveAllocation.
  rewrite (RemoveAllocation_scan_spec p st W).
  cbn [bind AllocationCount AllocationTableSize]; rewrite G.
  apply ResizeAllocationTable_at_or_above_minimum.
  apply shrink_guard_true in G; destruct G as [G1 G2].
  unfold TAGGED_ALLOC_MIN_TABLE_SIZE, TAGGED_ALLOC_TABLE_SHRINK_STEP,
    size_t_modulus in *.
  rewrite (wrap_small (AllocationCount st - 1)) in G1, G2
    by (unfold size_t_modulus; lia).
  assert (Hb : 96 < AllocationTableSize st).
  { destruct (Z_lt_le_dec (AllocationCount st - 1 + 64) (2 ^ 32))
      as [Hlt|Hge]; [|lia].
    rewrite wrap_small in G2 by (unfold size_t_modulus; lia); lia. }
  rewrite wrap_small by (unfold size_t_modulus; lia).
  lia.
Qed.

Lemma Free_passing_shrink_test_aborts_witness :
  Free lenient 4096 state_160_34 = AssertFail.
Proof.
  apply Free_passing_shrink_test_aborts;
    [wf_by_computation|wf_by_computation|reflexivity].
Defined.

(** ** Runs that need growth *)

Lemma run_app (P : platform) (cs cs' : list call) (st : state) :
  run P (cs ++ cs') st = (st1 <- run P cs st ;; run P cs' st1).
Proof.
  revert st; induction cs as [|c cs IH]; intros st; cbn [app run bind];
    [reflexivity|].
  destruct (step P c st); cbn [bind]; auto.
Qed.

(** C5, on the code: 65 Allocate calls on the table that [Init()] leaves
    on cleared memory, with no Free, have 65 allocations outstanding, yet
    the run has no count to show: the first 64 calls come back with a
    count of 64 and the 65th, which needs the table to grow, ends in the
    failed assertion of [ResizeAllocationTable], on every platform. *)
Theorem run_needing_growth_aborts (P : platform) :
  frees_matched overflow_calls = true
  /\ length (outstanding overflow_calls) = 65%nat
  /\ (exists st, run P fill_calls fresh_state = Ok st
                 /\ GetAllocationCount st = 64)
  /\ run P overflow_calls fresh_state = AssertFail.
Proof.
  split; [reflexivity|split; [reflexivity|]].
  destruct (run_tracking_invariant P fill_calls fresh_state []
              (Init_tracking_invariant (fun _ => zero_descriptor)
                 (fun _ => eq_refl))
              eq_refl eq_refl) as (st & E & W & Hs & Hc & Hp).
  split; [exists st; split; [exact E|exact Hc]|].
  unfold overflow_calls; rewrite run_app, E; cbn [bind run step].
  unfold AllocateInternal; cbn [Object negb assert bind Z.eqb].
  rewrite (InsertAllocation_step P _ st W)
    by (rewrite Hs; vm_compute; congruence).
  destruct (first_empty (AllocationTable st)) as [j|] eqn:Ej; [|reflexivity].
  apply first_empty_valid_count in Ej.
  pose proof (Permutation_length Hp) as Hl; rewrite length_map in Hl.
  unfold valid_count in Ej; rewrite Hl in Ej.
  destruct W as (Hw & _); rewrite Hs in Hw.
  change (length (outstanding_from [] fill_calls)) with 64%nat in Ej.
  unfold TAGGED_ALLOC_INITIAL_TABLE_SIZE in *; lia.
Qed.
